(** * ChoiceListEntry: the editor for choices and choice colours

    A shallow embedding of [app/client/widgets/ChoiceListEntry.ts]:
    the save computation, the edit/view state machine, the view-mode
    rows and the clipboard codec, with the properties the specification
    states about them. *)

From Stdlib Require Import ZArith NArith Lia String Ascii DecimalString.
From stdpp Require Import base option list gmap.

Local Open Scope N_scope.

(** ** JavaScript strings

    A JavaScript string is a sequence of UTF-16 code units.  Labels,
    colours and clipboard fields are all such strings. *)

Abbreviation jsstring := (list N).

(** [js] reads an ASCII literal as a JavaScript string. *)
Definition js (s : string) : jsstring :=
  map N_of_ascii (list_ascii_of_string s).

(** JavaScript truthiness of a string: every string but the empty one. *)
Definition truthy (s : jsstring) : bool :=
  match s with [] => false | _ :: _ => true end.

(** ** Data model *)

(** [IChoiceOptions] of [ChoiceTextBox]: the colours of one choice. *)
Record IChoiceOptions : Type := mkOptions {
  textColor : jsstring;
  fillColor : jsstring
}.

(** [class ChoiceItem implements IToken]. *)
Record ChoiceItem : Type := mkChoiceItem {
  label : jsstring;
  options : option IChoiceOptions
}.

#[global] Instance IChoiceOptions_eq_dec : EqDecision IChoiceOptions.
Proof. solve_decision. Defined.

#[global] Instance ChoiceItem_eq_dec : EqDecision ChoiceItem.
Proof. solve_decision. Defined.

(** [ChoiceOptionsByName = Map<string, IChoiceOptions>]. *)
Abbreviation ChoiceOptionsByName := (gmap jsstring IChoiceOptions).

(** ** lodash helpers *)

(** [uniqBy(array, iteratee)]: lodash's [baseUniq] walks the array once,
    keeps the keys computed so far in [seen], and pushes a value on
    [result] only when its key is not among them.  (For a long array
    lodash keeps the keys in a set cache; the result is the same.) *)
Fixpoint baseUniq {A K : Type} `{EqDecision K} (iteratee : A → K)
    (array : list A) (seen : list K) (result : list A) : list A :=
  match array with
  | [] => result
  | value :: rest =>
      let computed := iteratee value in
      if bool_decide (computed ∈ seen)
      then baseUniq iteratee rest seen result
      else baseUniq iteratee rest (seen ++ [computed]) (result ++ [value])
  end.

Definition uniqBy {A K : Type} `{EqDecision K} (iteratee : A → K)
    (array : list A) : list A :=
  baseUniq iteratee array [] [].

(** [isEqual(a, b)]: deep structural comparison.  On arrays of strings
    it compares lengths and elements in order; on Maps it compares the
    sizes and looks every key of one up in the other, whatever the
    insertion order.  Both are equality of the modelled values. *)
Definition isEqual {A : Type} `{EqDecision A} (a b : A) : bool :=
  bool_decide (a = b).

(** ** The save computation of [_save] *)

(** [tokens.push(new ChoiceItem(tokenInputVal))] when the text input is
    not empty. *)
Definition push_pending (tokens : list ChoiceItem) (tokenInputVal : jsstring)
    : list ChoiceItem :=
  if truthy tokenInputVal
  then tokens ++ [mkChoiceItem tokenInputVal None]
  else tokens.

(** The loop filling [newOptions]. *)
Definition set_options (newOptions : ChoiceOptionsByName) (t : ChoiceItem)
    : ChoiceOptionsByName :=
  match options t with
  | Some o =>
      <[label t := {| textColor := textColor o; fillColor := fillColor o |}]>
        newOptions
  | None => newOptions
  end.

Definition collect_options (newTokens : list ChoiceItem) : ChoiceOptionsByName :=
  fold_left set_options newTokens ∅.

(** The candidate [(newValues, newOptions)] computed from the tokens
    (after the push). *)
Definition candidate (tokens : list ChoiceItem)
    : list jsstring * ChoiceOptionsByName :=
  let newTokens := uniqBy label tokens in
  let newValues := map label newTokens in
  (newValues, collect_options newTokens).

Definition save_candidate (tokens : list ChoiceItem) (tokenInputVal : jsstring)
    : list jsstring * ChoiceOptionsByName :=
  candidate (push_pending tokens tokenInputVal).


(** ** JSON

    [JSON.parse] and [JSON.stringify] are built-ins of the language; the
    codec below follows ECMA-404 and the [QuoteJSONString] operation of
    ECMAScript.  A number keeps its lexeme: no property here looks at a
    numeric value. *)

#[warnings="-register-all"]
Inductive JSON : Type :=
  | JNull
  | JBool (b : bool)
  | JNumber (lexeme : jsstring)
  | JString (s : jsstring)
  | JArray (items : list JSON)
  | JObject (props : list (jsstring * JSON)).

(** *** Parsing *)

(** Space, tab, line feed, carriage return. *)
Definition is_ws (c : N) : bool :=
  (c =? 32) || (c =? 9) || (c =? 10) || (c =? 13).

Fixpoint skip_ws (s : jsstring) : jsstring :=
  match s with
  | [] => []
  | c :: r => if is_ws c then skip_ws r else s
  end.

Definition is_digit (c : N) : bool := (48 <=? c) && (c <=? 57).

Definition hex_value (c : N) : option N :=
  if is_digit c then Some (c - 48)
  else if (97 <=? c) && (c <=? 102) then Some (c - 87)
  else if (65 <=? c) && (c <=? 70) then Some (c - 55)
  else None.

Definition hex4 (a b c d : N) : option N :=
  va ← hex_value a; vb ← hex_value b; vc ← hex_value c; vd ← hex_value d;
  Some (((va * 16 + vb) * 16 + vc) * 16 + vd).

(** The character an escape letter stands for: after a backslash, a
    quote, a backslash or a slash stands for itself, and the letters
    b, f, n, r, t for the control characters 8, 12, 10, 13, 9. *)
Definition unescape (e : N) : option N :=
  if e =? 34 then Some 34
  else if e =? 92 then Some 92
  else if e =? 47 then Some 47
  else if e =? 98 then Some 8
  else if e =? 102 then Some 12
  else if e =? 110 then Some 10
  else if e =? 114 then Some 13
  else if e =? 116 then Some 9
  else None.

Definition cons_char (c : N) (r : option (jsstring * jsstring))
    : option (jsstring * jsstring) :=
  match r with
  | Some (str, rest) => Some (c :: str, rest)
  | None => None
  end.

(** The characters of a string literal, after its opening quote, up to
    and including the closing quote. *)
Fixpoint parse_chars (s : jsstring) : option (jsstring * jsstring) :=
  match s with
  | [] => None
  | c :: r =>
      if c =? 34 then Some ([], r)
      else if c =? 92 then
        match r with
        | [] => None
        | e :: r1 =>
            if e =? 117 then
              match r1 with
              | h1 :: h2 :: h3 :: h4 :: r2 =>
                  match hex4 h1 h2 h3 h4 with
                  | Some u => cons_char u (parse_chars r2)
                  | None => None
                  end
              | _ => None
              end
            else
              match unescape e with
              | Some u => cons_char u (parse_chars r1)
              | None => None
              end
        end
      else if c <? 32 then None
      else cons_char c (parse_chars r)
  end.

Fixpoint take_digits (s : jsstring) : jsstring * jsstring :=
  match s with
  | [] => ([], [])
  | c :: r =>
      if is_digit c
      then let '(ds, rest) := take_digits r in (c :: ds, rest)
      else ([], s)
  end.

(** A number: an optional minus sign; an integer part, either a single
    zero or a non-zero digit followed by digits; an optional fraction,
    a dot and at least one digit; an optional exponent, the letter e in
    either case, an optional sign and at least one digit. *)
Definition parse_int_part (s : jsstring) : option (jsstring * jsstring) :=
  match s with
  | [] => None
  | c :: r =>
      if c =? 48 then Some ([c], r)
      else if is_digit c
      then let '(ds, rest) := take_digits r in Some (c :: ds, rest)
      else None
  end.

Definition parse_frac_part (s : jsstring) : option (jsstring * jsstring) :=
  match s with
  | c :: r =>
      if c =? 46 then
        match take_digits r with
        | ([], _) => None
        | (ds, rest) => Some (c :: ds, rest)
        end
      else Some ([], s)
  | [] => Some ([], s)
  end.

Definition parse_exp_digits (pre : jsstring) (s : jsstring)
    : option (jsstring * jsstring) :=
  match take_digits s with
  | ([], _) => None
  | (ds, rest) => Some (pre ++ ds, rest)
  end.

Definition parse_exp_part (s : jsstring) : option (jsstring * jsstring) :=
  match s with
  | c :: r =>
      if (c =? 101) || (c =? 69) then
        match r with
        | sg :: r1 =>
            if (sg =? 43) || (sg =? 45)
            then parse_exp_digits [c; sg] r1
            else parse_exp_digits [c] r
        | [] => None
        end
      else Some ([], s)
  | [] => Some ([], s)
  end.

Definition parse_number (s : jsstring) : option (jsstring * jsstring) :=
  let '(sign, s1) :=
    match s with
    | c :: r => if c =? 45 then ([c], r) else ([], s)
    | [] => ([], s)
    end in
  '(int, s2) ← parse_int_part s1;
  '(frac, s3) ← parse_frac_part s2;
  '(exp, s4) ← parse_exp_part s3;
  Some (sign ++ int ++ frac ++ exp, s4).

(** [expect word s]: [s] without its prefix [word]. *)
Fixpoint expect (word s : jsstring) : option jsstring :=
  match word with
  | [] => Some s
  | w :: word' =>
      match s with
      | c :: r => if c =? w then expect word' r else None
      | [] => None
      end
  end.

(** A value, at a position where white space has been skipped.  [fuel]
    bounds the nesting and the number of elements read. *)
Fixpoint parse_value (fuel : nat) (s : jsstring) : option (JSON * jsstring) :=
  match fuel with
  | O => None
  | S fuel' =>
      match s with
      | [] => None
      | c :: r =>
          if c =? 34 then
            '(str, rest) ← parse_chars r; Some (JString str, rest)
          else if c =? 91 then
            match skip_ws r with
            | [] => None
            | c1 :: r1 =>
                if c1 =? 93 then Some (JArray [], r1)
                else '(items, rest) ← parse_elements fuel' (c1 :: r1);
                     Some (JArray items, rest)
            end
          else if c =? 123 then
            match skip_ws r with
            | [] => None
            | c1 :: r1 =>
                if c1 =? 125 then Some (JObject [], r1)
                else '(props, rest) ← parse_members fuel' (c1 :: r1);
                     Some (JObject props, rest)
            end
          else if c =? 116 then
            rest ← expect (js "true") s; Some (JBool true, rest)
          else if c =? 102 then
            rest ← expect (js "false") s; Some (JBool false, rest)
          else if c =? 110 then
            rest ← expect (js "null") s; Some (JNull, rest)
          else
            '(lexeme, rest) ← parse_number s; Some (JNumber lexeme, rest)
      end
  end
with parse_elements (fuel : nat) (s : jsstring)
    : option (list JSON * jsstring) :=
  match fuel with
  | O => None
  | S fuel' =>
      '(v, r) ← parse_value fuel' s;
      match skip_ws r with
      | [] => None
      | c :: r1 =>
          if c =? 44 then
            '(vs, rest) ← parse_elements fuel' (skip_ws r1);
            Some (v :: vs, rest)
          else if c =? 93 then Some ([v], r1)
          else None
      end
  end
with parse_members (fuel : nat) (s : jsstring)
    : option (list (jsstring * JSON) * jsstring) :=
  match fuel with
  | O => None
  | S fuel' =>
      match s with
      | [] => None
      | q :: r =>
          if q =? 34 then
            '(key, r1) ← parse_chars r;
            match skip_ws r1 with
            | [] => None
            | c1 :: r2 =>
                if c1 =? 58 then
                  '(v, r3) ← parse_value fuel' (skip_ws r2);
                  match skip_ws r3 with
                  | [] => None
                  | c2 :: r4 =>
                      if c2 =? 44 then
                        '(ms, rest) ← parse_members fuel' (skip_ws r4);
                        Some ((key, v) :: ms, rest)
                      else if c2 =? 125 then Some ([(key, v)], r4)
                      else None
                  end
                else None
            end
          else None
      end
  end.

(** [JSON.parse(text)]; [None] stands for the [SyntaxError] it throws. *)
Definition JSON_parse (text : jsstring) : option JSON :=
  match parse_value (S (length text)) (skip_ws text) with
  | Some (v, rest) =>
      match skip_ws rest with
      | [] => Some v
      | _ :: _ => None
      end
  | None => None
  end.

(** *** Printing *)

Definition hex_digit (d : N) : N := if d <? 10 then 48 + d else 87 + d.

(** The escape of one code unit as a backslash, the letter u and four
    lowercase hexadecimal digits. *)
Definition UnicodeEscape (c : N) : jsstring :=
  [92; 117; hex_digit (c / 4096 mod 16); hex_digit (c / 256 mod 16);
   hex_digit (c / 16 mod 16); hex_digit (c mod 16)].

Definition is_leading_surrogate (c : N) : bool := (0xD800 <=? c) && (c <=? 0xDBFF).
Definition is_trailing_surrogate (c : N) : bool := (0xDC00 <=? c) && (c <=? 0xDFFF).

(** A code unit that is not a surrogate. *)
Definition quote_char (c : N) : jsstring :=
  if c =? 34 then [92; 34]
  else if c =? 92 then [92; 92]
  else if c =? 8 then [92; 98]
  else if c =? 12 then [92; 102]
  else if c =? 10 then [92; 110]
  else if c =? 13 then [92; 114]
  else if c =? 9 then [92; 116]
  else if c <? 32 then UnicodeEscape c
  else [c].

(** [QuoteJSONString] without the enclosing quotes: a surrogate pair is
    copied, a lone surrogate is escaped. *)
Fixpoint quote_chars (s : jsstring) : jsstring :=
  match s with
  | [] => []
  | c :: r =>
      if is_leading_surrogate c then
        match r with
        | d :: r' =>
            if is_trailing_surrogate d
            then c :: d :: quote_chars r'
            else UnicodeEscape c ++ quote_chars r
        | [] => UnicodeEscape c
        end
      else if is_trailing_surrogate c then UnicodeEscape c ++ quote_chars r
      else quote_char c ++ quote_chars r
  end.

Definition QuoteJSONString (s : jsstring) : jsstring :=
  34 :: quote_chars s ++ [34].

Section Separated.
Context {A : Type} (print : A → jsstring).

(** The items of a list, separated by commas and followed by [close]. *)
Fixpoint separated (close : N) (l : list A) : jsstring :=
  match l with
  | [] => [close]
  | x :: l' =>
      print x ++
      match l' with
      | [] => [close]
      | _ :: _ => 44 :: separated close l'
      end
  end.
End Separated.

(** [JSON.stringify(value)], with no indentation. *)
Fixpoint JSON_stringify (v : JSON) : jsstring :=
  match v with
  | JNull => js "null"
  | JBool true => js "true"
  | JBool false => js "false"
  | JNumber lexeme => lexeme
  | JString s => QuoteJSONString s
  | JArray items => 91 :: separated JSON_stringify 93 items
  | JObject props =>
      123 :: separated
               (λ kv, match kv with
                      | (key, v') => QuoteJSONString key ++ 58 :: JSON_stringify v'
                      end) 125 props
  end.

(** ** ts-interface-checker *)

(** [value[name]] on a parsed value; [None] is [undefined].  A key
    written twice in an object text keeps its last value. *)
Fixpoint lookup_last (name : jsstring) (props : list (jsstring * JSON))
    : option JSON :=
  match props with
  | [] => None
  | (key, v) :: rest =>
      match lookup_last name rest with
      | Some v' => Some v'
      | None => if bool_decide (key = name) then Some v else None
      end
  end.

Definition prop (v : JSON) (name : jsstring) : option JSON :=
  match v with
  | JObject props => lookup_last name props
  | _ => None
  end.

(** [typeof value === "object" && value !== null]. *)
Definition is_object (v : JSON) : bool :=
  match v with
  | JObject _ | JArray _ => true
  | _ => false
  end.

(** The basic type ["string"] on a property that is not [undefined]. *)
Definition is_string (v : JSON) : bool :=
  match v with
  | JString _ => true
  | _ => false
  end.

(** A required property of type string. *)
Definition required_string (v : JSON) (name : jsstring) : bool :=
  match prop v name with
  | Some p => is_string p
  | None => false
  end.

(** [ChoiceOptionsType = iface([], {textColor: "string", fillColor: "string"})] *)
Definition ChoiceOptionsType (v : JSON) : bool :=
  is_object v && required_string v (js "textColor")
              && required_string v (js "fillColor").

(** [ChoiceItemType = iface([], {label: "string", options: opt("ChoiceOptionsType")})];
    [ChoiceItemChecker.test] is the check that allows further properties. *)
Definition ChoiceItemChecker_test (v : JSON) : bool :=
  is_object v && required_string v (js "label")
              && match prop v (js "options") with
                 | Some o => ChoiceOptionsType o
                 | None => true
                 end.

(** A checked value read through the [ChoiceItem] interface: the only
    properties this file reads of a token are [label], [options],
    [options.textColor] and [options.fillColor]. *)
Definition string_of (v : option JSON) : jsstring :=
  match v with
  | Some (JString s) => s
  | _ => []
  end.

Definition as_IChoiceOptions (v : JSON) : IChoiceOptions :=
  {| textColor := string_of (prop v (js "textColor"));
     fillColor := string_of (prop v (js "fillColor")) |}.

Definition as_ChoiceItem (v : JSON) : ChoiceItem :=
  {| label := string_of (prop v (js "label"));
     options := as_IChoiceOptions <$> prop v (js "options") |}.

(** ** Tokens as objects

    A token the token field holds is a JavaScript object, and
    [JSON.stringify] prints the object's own properties in their own
    order, further properties included.  Such an object is modelled by
    its properties in that order; a property whose value is [undefined]
    is left out, as [JSON.stringify] leaves it out and as [value[name]]
    reads it. *)

(** [new ChoiceItem(label, options)]: the properties [label] and
    [options], in the order of the constructor. *)
Definition new_ChoiceItem (label : jsstring) (options : option JSON) : JSON :=
  JObject ((js "label", JString label) ::
           match options with
           | Some o => [(js "options", o)]
           | None => []
           end).

(** The literal [{fillColor, textColor}] of [_renderToken]. *)
Definition options_literal (fillColor textColor : jsstring) : JSON :=
  JObject [(js "fillColor", JString fillColor);
           (js "textColor", JString textColor)].

(** ** The clipboard codec *)

(** A [DataTransfer]: the data stored for each format. *)
Abbreviation DataTransfer := (gmap jsstring jsstring).

(** [getData] answers the empty string for a format with no data. *)
Definition getData (clipboard : DataTransfer) (format : jsstring) : jsstring :=
  default [] (clipboard !! format).

Definition setData (format data : jsstring) (clipboard : DataTransfer)
    : DataTransfer :=
  <[format := data]> clipboard.

(** [string.split(sep)] for a one-character separator. *)
Fixpoint split (sep : N) (s : jsstring) : list jsstring :=
  match s with
  | [] => [[]]
  | c :: r =>
      if c =? sep then [] :: split sep r
      else match split sep r with
           | piece :: pieces => (c :: piece) :: pieces
           | [] => [[c]]
           end
  end.

(** [array.join(sep)]. *)
Fixpoint join (sep : N) (l : list jsstring) : jsstring :=
  match l with
  | [] => []
  | [x] => x
  | x :: l' => x ++ sep :: join sep l'
  end.

Definition isJSON (text : jsstring) : bool :=
  match JSON_parse text with
  | Some _ => true
  | None => false
  end.

(** The plain-text path of [clipboardToChoices]. *)
Definition textToChoices (clipboard : DataTransfer) : list ChoiceItem :=
  let maybeText := getData clipboard (js "text/plain") in
  if truthy maybeText
  then map (λ label, mkChoiceItem label None) (split 10 maybeText)
  else [].

Definition clipboardToChoices (clipboard : DataTransfer) : list ChoiceItem :=
  let maybeTokens := getData clipboard (js "application/json") in
  if truthy maybeTokens && isJSON maybeTokens then
    match JSON_parse maybeTokens with
    | Some (JArray tokens) =>
        if forallb ChoiceItemChecker_test tokens
        then map as_ChoiceItem tokens
        else textToChoices clipboard
    | _ => textToChoices clipboard
    end
  else textToChoices clipboard.

(** The [tokensToClipboard] option given to the token field, over the
    objects the token field holds: [JSON.stringify(tokens)] and
    [tokens.map(t => t.label).join('\n')]. *)
Definition tokensToClipboard (tokens : list JSON) (clipboard : DataTransfer)
    : DataTransfer :=
  setData (js "text/plain")
    (join 10 (map (λ t, string_of (prop t (js "label"))) tokens))
    (setData (js "application/json") (JSON_stringify (JArray tokens)) clipboard).

(** [jsq] reads a literal in which an apostrophe stands for a double
    quote, for JSON texts. *)
Definition jsq (s : string) : jsstring :=
  map (λ c, if c =? 39 then 34 else c) (js s).

(** ** The editor *)

(** The token field is another module ([app/client/lib/TokenField]);
    the editor reads two things of it: the array behind [tokensObs] and
    the value of its text input as [getTextInputValue()] returns it. *)
Record TokenField : Type := mkTokenField {
  tokensObs : list ChoiceItem;
  getTextInputValue : jsstring
}.

(** The fields of [ChoiceListEntry], with the values the two observables
    given at construction hold. *)
Record ChoiceListEntry : Type := mkEntry {
  _isEditing : bool;
  _tokenFieldHolder : option TokenField;
  _values : list jsstring;
  _choiceOptionsByName : ChoiceOptionsByName
}.

(** One invocation of [_onSave(values, choiceOptions)]. *)
Definition SaveCall : Type := list jsstring * ChoiceOptionsByName.

Definition set_isEditing (b : bool) (st : ChoiceListEntry) : ChoiceListEntry :=
  {| _isEditing := b;
     _tokenFieldHolder := _tokenFieldHolder st;
     _values := _values st;
     _choiceOptionsByName := _choiceOptionsByName st |}.

Definition set_tokenField (tf : TokenField) (st : ChoiceListEntry)
    : ChoiceListEntry :=
  {| _isEditing := _isEditing st;
     _tokenFieldHolder := Some tf;
     _values := _values st;
     _choiceOptionsByName := _choiceOptionsByName st |}.

Definition _startEditing (st : ChoiceListEntry) : ChoiceListEntry :=
  set_isEditing true st.

Definition _cancel (st : ChoiceListEntry) : ChoiceListEntry :=
  set_isEditing false st.

(** [_save]: the state afterwards and the calls of [_onSave] made.  The
    push of the pending text changes the array the token field holds. *)
Definition _save (st : ChoiceListEntry) : ChoiceListEntry * list SaveCall :=
  match _tokenFieldHolder st with
  | None => (st, [])
  | Some tokenField =>
      let tokens := push_pending (tokensObs tokenField)
                                 (getTextInputValue tokenField) in
      let st := set_tokenField
                  (mkTokenField tokens (getTextInputValue tokenField)) st in
      let '(newValues, newOptions) := candidate tokens in
      if negb (isEqual (_values st) newValues)
         || negb (isEqual (_choiceOptionsByName st) newOptions)
      then (st, [(newValues, newOptions)])
      else (_cancel st, [])
  end.

(** The [initialValue] of the token field built in edit mode. *)
Definition initialValue (st : ChoiceListEntry) : list ChoiceItem :=
  map (λ label, mkChoiceItem label (_choiceOptionsByName st !! label))
      (_values st).

(** [dom.domComputed(this._isEditing, ...)]: when the flag turns true
    the edit-mode tree is built, and with it a new token field, stored
    in the holder in place of the one held before; its text input is
    empty. *)
Definition render (wasEditing : bool) (st : ChoiceListEntry) : ChoiceListEntry :=
  if negb wasEditing && _isEditing st
  then set_tokenField (mkTokenField (initialValue st) []) st
  else st.

(** What can happen to a built editor.  The view-mode tree has the list
    box and the Edit button, the edit-mode tree the Save and Cancel
    buttons and the Enter and Escape keys; the user also works inside
    the token field, and the two observables change from outside. *)
Inductive Event : Type :=
  | ClickListBox
  | ClickEdit
  | ClickSave
  | KeyEnter
  | ClickCancel
  | KeyEscape
  | TokenFieldChange (tokens : list ChoiceItem) (textInput : jsstring)
  | ValuesChange (values : list jsstring)
  | OptionsChange (choiceOptions : ChoiceOptionsByName).

Definition set_values (values : list jsstring) (st : ChoiceListEntry)
    : ChoiceListEntry :=
  {| _isEditing := _isEditing st;
     _tokenFieldHolder := _tokenFieldHolder st;
     _values := values;
     _choiceOptionsByName := _choiceOptionsByName st |}.

Definition set_choiceOptions (choiceOptions : ChoiceOptionsByName)
    (st : ChoiceListEntry) : ChoiceListEntry :=
  {| _isEditing := _isEditing st;
     _tokenFieldHolder := _tokenFieldHolder st;
     _values := _values st;
     _choiceOptionsByName := choiceOptions |}.

(** The handler of an event, then the re-rendering.  An event of a tree
    that is not displayed does not occur.  Only [_values] has a
    listener, the one added in the constructor. *)
Definition handle (st : ChoiceListEntry) (e : Event)
    : ChoiceListEntry * list SaveCall :=
  match e with
  | ClickListBox | ClickEdit =>
      if _isEditing st then (st, []) else (_startEditing st, [])
  | ClickSave | KeyEnter =>
      if _isEditing st then _save st else (st, [])
  | ClickCancel | KeyEscape =>
      if _isEditing st then (_cancel st, []) else (st, [])
  | TokenFieldChange tokens textInput =>
      if _isEditing st
      then (set_tokenField (mkTokenField tokens textInput) st, [])
      else (st, [])
  | ValuesChange values => (_cancel (set_values values st), [])
  | OptionsChange choiceOptions => (set_choiceOptions choiceOptions st, [])
  end.

Definition step (st : ChoiceListEntry) (e : Event)
    : ChoiceListEntry * list SaveCall :=
  let '(st', calls) := handle st e in
  (render (_isEditing st) st', calls).

(** The calls of [_onSave] over a sequence of events, and the final
    state. *)
Fixpoint run (st : ChoiceListEntry) (events : list Event)
    : ChoiceListEntry * list SaveCall :=
  match events with
  | [] => (st, [])
  | e :: events' =>
      let '(st1, calls1) := step st e in
      let '(st2, calls2) := run st1 events' in
      (st2, calls1 ++ calls2)
  end.

(** The number of calls of [_onSave] in each edit session, a session
    running from the event that starts editing to the event that ends
    it (or to the end of the events); [n] counts the calls of the
    session in progress. *)
Fixpoint session_calls (st : ChoiceListEntry) (n : nat) (events : list Event)
    : list nat :=
  match events with
  | [] => if _isEditing st then [n] else []
  | e :: events' =>
      let '(st', calls) := step st e in
      let n' := (n + length calls)%nat in
      if _isEditing st && negb (_isEditing st')
      then n' :: session_calls st' 0 events'
      else session_calls st' n' events'
  end.

(** The editor as constructed and built: in view mode, no token field. *)
Definition create (values : list jsstring) (choiceOptions : ChoiceOptionsByName)
    : ChoiceListEntry :=
  {| _isEditing := false;
     _tokenFieldHolder := None;
     _values := values;
     _choiceOptionsByName := choiceOptions |}.

(** ** View mode *)

Definition UNSET_COLOR : jsstring := js "#ffffff".

Definition getFillColor (choiceOptions : option IChoiceOptions) : jsstring :=
  match choiceOptions with
  | Some o => fillColor o
  | None => UNSET_COLOR
  end.

(** One [row(...)] of the list box: a text, or a colour square and a
    label. *)
Inductive Row : Type :=
  | TextRow (text : jsstring)
  | ChoiceRow (backgroundColor : jsstring) (label : jsstring).

(** [array.slice(0, end)] for an integer [end]: a negative [end] counts
    from the end of the array. *)
Definition slice0 {A : Type} (l : list A) (end_ : Z) : list A :=
  let len := Z.of_nat (length l) in
  let final := if (end_ <? 0)%Z then Z.max (len + end_) 0 else Z.min end_ len in
  take (Z.to_nat final) l.

(** A number in a template literal; the numbers here are integers. *)
Definition Number_toString (z : Z) : jsstring :=
  js (NilZero.string_of_int (Z.to_int z)).

Definition someValues (maxRows : Z) (values : list jsstring) : list jsstring :=
  if (Z.of_nat (length values) <=? maxRows)%Z
  then values
  else slice0 values (maxRows - 1).

Definition choice_row (choiceOptions : ChoiceOptionsByName) (val : jsstring) : Row :=
  ChoiceRow (getFillColor (choiceOptions !! val)) val.

Definition more_row (n : Z) : Row :=
  TextRow (js "+" ++ Number_toString n ++ js " more").

(** The rows of the list box [buildDom(maxRows)] builds in view mode,
    for an integer [maxRows]. *)
Definition buildDom_view (maxRows : Z) (st : ChoiceListEntry) : list Row :=
  let shown := someValues maxRows (_values st) in
  (if (length shown =? 0)%nat then [TextRow (js "No choices configured")] else [])
  ++ map (choice_row (_choiceOptionsByName st)) shown
  ++ (if (Z.of_nat (length (_values st)) >? maxRows)%Z
      then [more_row (Z.of_nat (length (_values st)) - (maxRows - 1))]
      else []).

(** ** The reference definitions of the specification *)

(** Deduplication by label, keeping for each label the first token that
    bears it. *)
Fixpoint deduplicate (tokens : list ChoiceItem) : list ChoiceItem :=
  match tokens with
  | [] => []
  | t :: rest => t :: filter (λ t', label t' ≠ label t) (deduplicate rest)
  end.

(** The entry a token contributes to the mapping: none without options. *)
Definition entry (t : ChoiceItem) : option (jsstring * IChoiceOptions) :=
  (λ o, (label t, o)) <$> options t.

(** The candidate result of a save, as the specification words it. *)
Definition reference_candidate (tokens : list ChoiceItem) (pending : jsstring)
    : list jsstring * ChoiceOptionsByName :=
  let all := match pending with
             | [] => tokens
             | _ :: _ => tokens ++ [mkChoiceItem pending None]
             end in
  let surviving := deduplicate all in
  (map label surviving, list_to_map (omap entry surviving)).

(** The rows of view mode, as the specification words them. *)
Definition reference_rows (maxRows : Z) (values : list jsstring)
    (choiceOptions : ChoiceOptionsByName) : list Row :=
  let n := Z.of_nat (length values) in
  if (n =? 0)%Z then [TextRow (js "No choices configured")]
  else if (n <=? maxRows)%Z then map (choice_row choiceOptions) values
  else map (choice_row choiceOptions) (take (Z.to_nat (maxRows - 1)) values)
       ++ [TextRow (js "+" ++ Number_toString (n - (maxRows - 1)) ++ js " more")].

(** The plain-text decoding, as the specification words it: one token
    for each line. *)
Definition one_token_per_line (text : jsstring) : list ChoiceItem :=
  map (λ line, mkChoiceItem line None) (split 10 text).

(** The structured field is usable when it parses to a list whose
    elements all have the shape of a token. *)
Definition token_list_shape (v : JSON) : bool :=
  match v with
  | JArray items => forallb ChoiceItemChecker_test items
  | _ => false
  end.

(** Two editors that show the same thing: the same mode, the same
    values and options and, in edit mode, the same token field. *)
Definition same_view (st1 st2 : ChoiceListEntry) : Prop :=
  _isEditing st1 = _isEditing st2
  ∧ _values st1 = _values st2
  ∧ _choiceOptionsByName st1 = _choiceOptionsByName st2
  ∧ (_isEditing st1 = true → _tokenFieldHolder st1 = _tokenFieldHolder st2).

(** A parsed element read as a token: the label and the colours are
    the strings the element holds. *)
Definition reads_as (item : JSON) (t : ChoiceItem) : Prop :=
  prop item (js "label") = Some (JString (label t))
  ∧ match options t with
    | None => prop item (js "options") = None
    | Some o =>
        ∃ v, prop item (js "options") = Some v
             ∧ prop v (js "textColor") = Some (JString (textColor o))
             ∧ prop v (js "fillColor") = Some (JString (fillColor o))
    end.

(** The lexemes of numbers: the texts [parse_number] reads whole. *)
Definition number_lexeme (lexeme : jsstring) : bool :=
  bool_decide (parse_number lexeme = Some (lexeme, [])).

(** A text that cannot continue a number: empty, or starting with a
    character that is neither a digit, nor a dot, nor the letter e. *)
Definition delimited (rest : jsstring) : bool :=
  match rest with
  | [] => true
  | c :: _ => negb (is_digit c || (c =? 46) || (c =? 101) || (c =? 69))
  end.

(** The values as [JSON.stringify] prints them: every number is given
    by the lexeme printed for it. *)
Fixpoint printable (v : JSON) : bool :=
  match v with
  | JNumber lexeme => number_lexeme lexeme
  | JArray items => forallb printable items
  | JObject props =>
      forallb (λ kv, match kv with (_, v') => printable v' end) props
  | _ => true
  end.

(** An object the token field can hold as a token, of the type
    [ChoiceItem]: its label is a string and its options, when defined,
    an object with the two colours as strings; whatever the order of
    its properties, and whatever further properties it has. *)
Definition held_token (item : JSON) : bool :=
  printable item && ChoiceItemChecker_test item.

(** The object [item] holds the token [t]. *)
Definition holds (item : JSON) (t : ChoiceItem) : Prop :=
  held_token item = true ∧ as_ChoiceItem item = t.

(** One member of an object, as [JSON_stringify] prints it. *)
Definition print_member (kv : jsstring * JSON) : jsstring :=
  match kv with
  | (key, v') => QuoteJSONString key ++ 58 :: JSON_stringify v'
  end.

(** A printed value starts with a character that is not white space
    and closes no array or object. *)
Definition opens_value (s : jsstring) : Prop :=
  ∃ c r, s = c :: r ∧ skip_ws s = s ∧ c ≠ 93 ∧ c ≠ 125.

(** ** Observations on sequences of events *)

(** The events that come from outside the editor. *)
Definition is_external (e : Event) : bool :=
  match e with
  | ValuesChange _ | OptionsChange _ => true
  | _ => false
  end.

(** The two ways to trigger [_save]. *)
Definition is_save (e : Event) : bool :=
  match e with
  | ClickSave | KeyEnter => true
  | _ => false
  end.

(** The values and options the two observables hold after the changes
    from outside among [events]. *)
Fixpoint external_changes (events : list Event)
    (held : list jsstring * ChoiceOptionsByName)
    : list jsstring * ChoiceOptionsByName :=
  match events with
  | [] => held
  | ValuesChange values :: events' => external_changes events' (values, held.2)
  | OptionsChange choiceOptions :: events' =>
      external_changes events' (held.1, choiceOptions)
  | _ :: events' => external_changes events' held
  end.

(** The arguments of a call of [_onSave] are consistent: no label
    twice, and options only for labels among the values. *)
Definition consistent (call : SaveCall) : Prop :=
  NoDup call.1 ∧ ∀ l, is_Some (call.2 !! l) → l ∈ call.1.

(** A save triggered in edit mode while the candidate differs from the
    values and options held. *)
Definition differing_save (st : ChoiceListEntry) (e : Event) : bool :=
  is_save e && _isEditing st
  && match _tokenFieldHolder st with
     | Some tokenField =>
         negb (isEqual (save_candidate (tokensObs tokenField)
                                       (getTextInputValue tokenField))
                       (_values st, _choiceOptionsByName st))
     | None => false
     end.

(** No save is triggered, after a call in the same session, while the
    candidate still differs from the pair held; [called] tells whether
    the session in progress has made a call. *)
Fixpoint no_resave (st : ChoiceListEntry) (called : bool) (events : list Event)
    : bool :=
  match events with
  | [] => true
  | e :: events' =>
      let st' := fst (step st e) in
      negb (called && differing_save st e)
      && no_resave st' (_isEditing st' && (called || differing_save st e))
                   events'
  end.

(** A row that shows a choice. *)
Definition is_choice_row (r : Row) : bool :=
  match r with
  | ChoiceRow _ _ => true
  | TextRow _ => false
  end.

(** ** The colour button of a token *)

Section RenderToken.
(** [DEFAULT_TEXT_COLOR] is a constant of [app/client/widgets/ChoiceToken]. *)
Variable DEFAULT_TEXT_COLOR : jsstring.

Definition getTextColor (choiceOptions : option IChoiceOptions) : jsstring :=
  match choiceOptions with
  | Some o => textColor o
  | None => DEFAULT_TEXT_COLOR
  end.

(** The values [_renderToken] gives the two observables of the colour
    button of a token. *)
Definition fillColorObs (token : ChoiceItem) : jsstring :=
  getFillColor (options token).

Definition textColorObs (token : ChoiceItem) : jsstring :=
  getTextColor (options token).

(** The save handler [_renderToken] gives the colour button, run when
    the observables hold [fillColor] and [textColor]: nothing without a
    token field in the holder, else the call
    [tokenField.replaceToken(token.label, new ChoiceItem(...))], given
    by its two arguments. *)
Definition colorButton_onSave (st : ChoiceListEntry) (token : ChoiceItem)
    (fillColor textColor : jsstring) : option (jsstring * ChoiceItem) :=
  match _tokenFieldHolder st with
  | None => None
  | Some _ =>
      Some (label token,
            mkChoiceItem (label token)
              (Some {| textColor := textColor; fillColor := fillColor |}))
  end.
End RenderToken.

(** * Properties *)

(** ** Deduplication *)

Section BaseUniq.
Context {A K : Type} `{EqDecision K} (f : A → K).

Lemma baseUniq_app (array : list A) (seen : list K) (result : list A) :
  baseUniq f array seen result = result ++ baseUniq f array seen [].
Proof.
  revert seen result.
  induction array as [|x array IH]; intros seen result; simpl.
  - by rewrite app_nil_r.
  - case_bool_decide; [apply IH|].
    rewrite (IH _ (result ++ [x])), (IH _ ([] ++ [x])).
    by rewrite <- app_assoc.
Qed.

(** Every label pushed on [seen] stays there: a token is kept exactly
    when its label is new. *)
Lemma baseUniq_cons_seen (x : A) (array : list A) (seen : list K) :
  f x ∈ seen →
  baseUniq f (x :: array) seen [] = baseUniq f array seen [].
Proof. intros Hin. simpl. by rewrite bool_decide_eq_true_2. Qed.

Lemma baseUniq_cons_new (x : A) (array : list A) (seen : list K) :
  f x ∉ seen →
  baseUniq f (x :: array) seen [] = x :: baseUniq f array (seen ++ [f x]) [].
Proof.
  intros Hin. simpl. rewrite bool_decide_eq_false_2 by done.
  by rewrite baseUniq_app.
Qed.
End BaseUniq.

Lemma filter_all {A : Type} (P : A → Prop) `{∀ x, Decision (P x)} (l : list A) :
  Forall P l → filter P l = l.
Proof.
  induction 1 as [|x l Hx _ IH]; [done|].
  by rewrite filter_cons_True, IH.
Qed.

Lemma baseUniq_deduplicate (tokens : list ChoiceItem) (seen : list jsstring) :
  baseUniq label tokens seen []
  = filter (λ t, label t ∉ seen) (deduplicate tokens).
Proof.
  revert seen. induction tokens as [|t tokens IH]; intros seen; [done|].
  cbn [deduplicate]. destruct (decide (label t ∈ seen)) as [Hin|Hin].
  - rewrite baseUniq_cons_seen, IH by done.
    rewrite filter_cons_False by (intros H; by apply H).
    rewrite list_filter_filter. apply list_filter_iff.
    intros t'. split; [|tauto]. intros H. split; [done|]. congruence.
  - rewrite baseUniq_cons_new, IH by done.
    rewrite filter_cons_True by done. f_equal.
    rewrite list_filter_filter. apply list_filter_iff.
    intros t'. rewrite elem_of_app, list_elem_of_singleton. tauto.
Qed.

Lemma uniqBy_deduplicate (tokens : list ChoiceItem) :
  uniqBy label tokens = deduplicate tokens.
Proof.
  unfold uniqBy. rewrite baseUniq_deduplicate.
  apply filter_all, Forall_forall. intros t _. apply not_elem_of_nil.
Qed.

Lemma deduplicate_subseteq (tokens : list ChoiceItem) :
  deduplicate tokens ⊆ tokens.
Proof.
  induction tokens as [|t tokens IH]; [done|]. cbn [deduplicate].
  intros t' [->|Hin]%elem_of_cons; [left|right].
  apply list_elem_of_filter in Hin as [_ Hin]. by apply IH.
Qed.

Lemma deduplicate_labels (tokens : list ChoiceItem) (l : jsstring) :
  l ∈ map label (deduplicate tokens) ↔ l ∈ map label tokens.
Proof.
  induction tokens as [|t tokens IH]; [done|]. cbn [deduplicate map].
  rewrite !elem_of_cons, <- IH, !list_elem_of_fmap.
  split.
  - intros [->|(t' & -> & Hin)]; [by left|right].
    apply list_elem_of_filter in Hin as [_ Hin]. eauto.
  - intros [->|(t' & -> & Hin)]; [by left|].
    destruct (decide (label t' = label t)) as [Heq|Hne]; [by left|right].
    exists t'. split; [done|]. by apply list_elem_of_filter.
Qed.

Lemma NoDup_map_filter {A B : Type} (f : A → B) (P : A → Prop)
    `{∀ x, Decision (P x)} (l : list A) :
  NoDup (map f l) → NoDup (map f (filter P l)).
Proof.
  induction l as [|x l IH]; [done|]. cbn [map].
  intros [Hx Hl]%NoDup_cons.
  destruct (decide (P x)).
  - rewrite filter_cons_True by done. cbn [map]. apply NoDup_cons.
    split; [|by apply IH]. intros (y & Hy & Hin)%list_elem_of_fmap.
    apply list_elem_of_filter in Hin as [_ Hin].
    apply Hx, list_elem_of_fmap. eauto.
  - rewrite filter_cons_False by done. by apply IH.
Qed.

Lemma deduplicate_NoDup (tokens : list ChoiceItem) :
  NoDup (map label (deduplicate tokens)).
Proof.
  induction tokens as [|t tokens IH]; [constructor|]. cbn [deduplicate map].
  apply NoDup_cons. split; [|by apply NoDup_map_filter].
  intros (t' & Heq & Hin)%list_elem_of_fmap.
  apply list_elem_of_filter in Hin as [Hne _]. congruence.
Qed.

Lemma deduplicate_id (tokens : list ChoiceItem) :
  NoDup (map label tokens) → deduplicate tokens = tokens.
Proof.
  induction tokens as [|t tokens IH]; [done|]. cbn [map deduplicate].
  intros [Ht Hnd]%NoDup_cons. rewrite IH by done. f_equal.
  apply filter_all, Forall_forall. intros t' Hin Heq.
  apply Ht. rewrite <- Heq. apply list_elem_of_fmap. eauto.
Qed.

Lemma deduplicate_app (l1 l2 : list ChoiceItem) :
  deduplicate (l1 ++ l2)
  = deduplicate l1 ++ filter (λ t, label t ∉ map label l1) (deduplicate l2).
Proof.
  induction l1 as [|t l1 IH]; cbn [app deduplicate map].
  - symmetry. apply filter_all, Forall_forall. intros t _. apply not_elem_of_nil.
  - f_equal. rewrite IH, filter_app. f_equal.
    rewrite list_filter_filter. apply list_filter_iff.
    intros t'. rewrite not_elem_of_cons. tauto.
Qed.

(** ** The options mapping *)

Lemma rebuild_options (o : IChoiceOptions) :
  {| textColor := textColor o; fillColor := fillColor o |} = o.
Proof. by destruct o. Qed.

Lemma entry_labels (tokens : list ChoiceItem) (k : jsstring) :
  k ∈ (omap entry tokens).*1 → k ∈ map label tokens.
Proof.
  intros ([k' o] & -> & Hin)%list_elem_of_fmap.
  apply list_elem_of_omap in Hin as (t & Hin & Hentry).
  unfold entry in Hentry. destruct (options t); simplify_eq/=.
  apply list_elem_of_fmap. eauto.
Qed.

Lemma entry_NoDup (tokens : list ChoiceItem) :
  NoDup (map label tokens) → NoDup (omap entry tokens).*1.
Proof.
  induction tokens as [|t tokens IH]; [constructor|]. cbn [map].
  intros [Ht Hnd]%NoDup_cons. cbn [omap list_omap].
  unfold entry at 1. destruct (options t) as [o|]; cbn; [|by apply IH].
  apply NoDup_cons. split; [|by apply IH].
  intros Hin. by apply Ht, entry_labels.
Qed.

Lemma fold_set_options (tokens : list ChoiceItem) (m : ChoiceOptionsByName) :
  NoDup (map label tokens) →
  fold_left set_options tokens m = list_to_map (omap entry tokens) ∪ m.
Proof.
  revert m. induction tokens as [|t tokens IH]; intros m; cbn [map fold_left].
  - intros _. cbn. by rewrite (left_id_L ∅ (∪)).
  - intros [Ht Hnd]%NoDup_cons. rewrite IH by done.
    cbn [omap list_omap]. unfold set_options, entry at 2.
    destruct (options t) as [o|]; cbn; [|done].
    rewrite rebuild_options, <- insert_union_l. symmetry. apply insert_union_r.
    apply not_elem_of_list_to_map_1. intros Hin. by apply Ht, entry_labels.
Qed.

Lemma collect_options_list_to_map (tokens : list ChoiceItem) :
  NoDup (map label tokens) →
  collect_options tokens = list_to_map (omap entry tokens).
Proof.
  intros Hnd. unfold collect_options.
  by rewrite fold_set_options, (right_id_L ∅ (∪)).
Qed.

(** The mapping has an entry exactly for the tokens that carry options. *)
Lemma collect_options_lookup (tokens : list ChoiceItem) (k : jsstring)
    (o : IChoiceOptions) :
  NoDup (map label tokens) →
  collect_options tokens !! k = Some o ↔ mkChoiceItem k (Some o) ∈ tokens.
Proof.
  intros Hnd. rewrite collect_options_list_to_map by done.
  rewrite <- elem_of_list_to_map by by apply entry_NoDup.
  rewrite list_elem_of_omap. unfold entry. split.
  - intros ([l [o'|]] & Hin & Heq); simplify_eq/=. done.
  - intros Hin. by exists (mkChoiceItem k (Some o)).
Qed.

Lemma collect_options_token (tokens : list ChoiceItem) (t : ChoiceItem) :
  NoDup (map label tokens) → t ∈ tokens →
  collect_options tokens !! label t = options t.
Proof.
  intros Hnd Hin. destruct t as [l [o|]]; cbn.
  - by apply collect_options_lookup.
  - destruct (collect_options tokens !! l) as [o|] eqn:Hl; [|done].
    apply collect_options_lookup in Hl; [|done].
    assert (mkChoiceItem l None = mkChoiceItem l (Some o)) as Heq; [|done].
    revert Hnd Hin Hl. clear. induction tokens as [|t tokens IH]; [by intros _ ?%elem_of_nil|].
    cbn [map]. intros [Ht Hnd]%NoDup_cons Hin Hin'.
    apply elem_of_cons in Hin as [<-|Hin], Hin' as [Heq|Hin']; try done.
    + exfalso. apply Ht. apply list_elem_of_fmap. by exists (mkChoiceItem l (Some o)).
    + exfalso. apply Ht. subst t. apply list_elem_of_fmap. by exists (mkChoiceItem l None).
    + by apply IH.
Qed.

(** ** The candidate of a save *)

Lemma candidate_deduplicate (tokens : list ChoiceItem) :
  candidate tokens
  = (map label (deduplicate tokens),
     list_to_map (omap entry (deduplicate tokens))).
Proof.
  unfold candidate. rewrite uniqBy_deduplicate.
  by rewrite collect_options_list_to_map by apply deduplicate_NoDup.
Qed.

(** C2.  For every token sequence of the session and every pending text,
    the candidate [_save] computes is the reference computation: the
    pending text, when not empty, is appended as a token without
    options; the tokens are deduplicated by label; the labels of the
    survivors, in order, are the new values; and the new mapping holds
    the options [o] under the label [l] exactly when a surviving token
    has label [l] and options [o], so that a token without options has
    no entry. *)
Theorem save_candidate_is_reference (tokens : list ChoiceItem)
    (pending : jsstring) :
  save_candidate tokens pending = reference_candidate tokens pending
  ∧ let surviving := deduplicate (push_pending tokens pending) in
    fst (save_candidate tokens pending) = map label surviving
    ∧ NoDup (map label surviving)
    ∧ (∀ l o, snd (save_candidate tokens pending) !! l = Some o
              ↔ mkChoiceItem l (Some o) ∈ surviving)
    ∧ (∀ l, mkChoiceItem l None ∈ surviving →
            snd (save_candidate tokens pending) !! l = None).
Proof.
  unfold save_candidate, reference_candidate.
  assert (push_pending tokens pending
          = match pending with
            | [] => tokens
            | _ :: _ => tokens ++ [mkChoiceItem pending None]
            end) as <- by by destruct pending.
  set (all := push_pending tokens pending).
  split; [apply candidate_deduplicate|].
  pose proof (deduplicate_NoDup all) as Hnd.
  unfold candidate. rewrite uniqBy_deduplicate. cbn.
  repeat split; try done.
  - by apply collect_options_lookup.
  - by apply collect_options_lookup.
  - intros l Hin.
    by apply (collect_options_token _ (mkChoiceItem l None)).
Qed.

(** C9.  When a label occurs several times among the tokens, the save
    keeps its first occurrence: for a token [t] whose label no earlier
    token bears, the new values hold that label once, after the labels
    of the tokens before it and nowhere later, and the new mapping
    gives that label the options of [t] (none when [t] has none),
    whatever the options of the later tokens with the same label. *)
Theorem save_keeps_first_occurrence (before : list ChoiceItem)
    (t : ChoiceItem) (after : list ChoiceItem) (pending : jsstring) :
  label t ∉ map label before →
  ∃ later : list jsstring,
    fst (save_candidate (before ++ t :: after) pending)
    = map label (deduplicate before) ++ label t :: later
    ∧ (label t ∉ map label (deduplicate before))
    ∧ (label t ∉ later)
    ∧ snd (save_candidate (before ++ t :: after) pending) !! label t
      = options t.
Proof.
  intros Hfirst. unfold save_candidate.
  assert (∃ after', push_pending (before ++ t :: after) pending
                    = before ++ t :: after') as [after' ->].
  { unfold push_pending. destruct (truthy pending); [|by eauto].
    exists (after ++ [mkChoiceItem pending None]). by rewrite <- app_assoc. }
  unfold candidate. rewrite uniqBy_deduplicate. cbn [fst snd].
  pose proof (deduplicate_NoDup (before ++ t :: after')) as Hnd.
  rewrite collect_options_token; [|done|].
  2:{ rewrite deduplicate_app. apply elem_of_app. right. cbn [deduplicate].
      rewrite filter_cons_True by done. left. }
  rewrite deduplicate_app in *. cbn [deduplicate] in *.
  rewrite filter_cons_True in * by done.
  rewrite map_app in *. cbn [map] in *.
  eexists. split; [done|].
  apply NoDup_app in Hnd as (_ & _ & [Hlater _]%NoDup_cons).
  by rewrite deduplicate_labels.
Qed.

(** The example of the specification: of two tokens labelled A, the
    first without options and the second with, the first survives. *)
Lemma save_keeps_first_occurrence_witness :
  ∃ later : list jsstring,
    fst (save_candidate
           ([] ++ mkChoiceItem (js "A") None
               :: [mkChoiceItem (js "A")
                     (Some (mkOptions (js "#000") (js "#f00")))]) [])
    = map label (deduplicate []) ++ js "A" :: later
    ∧ (js "A" ∉ map label (deduplicate []))
    ∧ (js "A" ∉ later)
    ∧ snd (save_candidate
             ([] ++ mkChoiceItem (js "A") None
                 :: [mkChoiceItem (js "A")
                       (Some (mkOptions (js "#000") (js "#f00")))]) [])
          !! js "A"
      = None.
Proof.
  apply (save_keeps_first_occurrence [] (mkChoiceItem (js "A") None)).
  cbn. apply not_elem_of_nil.
Defined.

Example save_duplicate_labels :
  save_candidate
    [mkChoiceItem (js "A") (Some (mkOptions (js "#000") (js "#f00")));
     mkChoiceItem (js "B") None;
     mkChoiceItem (js "A") (Some (mkOptions (js "#fff") (js "#00f")))]
    (js "B")
  = ([js "A"; js "B"], {[ js "A" := mkOptions (js "#000") (js "#f00") ]}).
Proof. vm_compute. reflexivity. Qed.

(** ** Saving *)

Lemma save_editing (st : ChoiceListEntry) (tokenField : TokenField) :
  _isEditing st = true →
  _tokenFieldHolder st = Some tokenField →
  let cand := save_candidate (tokensObs tokenField)
                             (getTextInputValue tokenField) in
  step st ClickSave = step st KeyEnter
  ∧ (cand ≠ (_values st, _choiceOptionsByName st) →
     snd (step st ClickSave) = [cand]
     ∧ _isEditing (fst (step st ClickSave)) = true)
  ∧ (cand = (_values st, _choiceOptionsByName st) →
     snd (step st ClickSave) = []
     ∧ _isEditing (fst (step st ClickSave)) = false).
Proof.
  intros Hedit Hholder cand. split; [done|].
  unfold step, handle, _save. rewrite Hedit, Hholder.
  fold (save_candidate (tokensObs tokenField) (getTextInputValue tokenField)).
  fold cand. destruct cand as [newValues newOptions]. cbn [_values
    _choiceOptionsByName set_tokenField]. unfold isEqual.
  split.
  - intros Hne.
    destruct (decide (_values st = newValues)) as [<-|Hv];
      [destruct (decide (_choiceOptionsByName st = newOptions)) as [<-|Ho]|].
    + done.
    + rewrite bool_decide_eq_true_2, (bool_decide_eq_false_2 _ Ho) by done.
      cbn. unfold render. cbn. by rewrite Hedit.
    + rewrite (bool_decide_eq_false_2 _ Hv). cbn. unfold render. cbn.
      by rewrite Hedit.
  - intros [= <- <-]. rewrite !bool_decide_eq_true_2 by done. cbn.
    unfold render. cbn. by rewrite ?Hedit.
Qed.

(** The tokens a session starts with, saved as they are. *)
Lemma initialValue_labels (st : ChoiceListEntry) :
  map label (initialValue st) = _values st.
Proof.
  unfold initialValue. rewrite map_map. cbn. apply map_id.
Qed.

Lemma initialValue_elem (st : ChoiceListEntry) (l : jsstring)
    (o : option IChoiceOptions) :
  mkChoiceItem l o ∈ initialValue st
  ↔ l ∈ _values st ∧ _choiceOptionsByName st !! l = o.
Proof.
  unfold initialValue. rewrite list_elem_of_fmap. split.
  - intros (l' & [= -> ->] & Hin). done.
  - intros [Hin <-]. eauto.
Qed.

Lemma candidate_unchanged (st : ChoiceListEntry) :
  candidate (initialValue st) = (_values st, _choiceOptionsByName st)
  ↔ NoDup (_values st)
    ∧ ∀ l, is_Some (_choiceOptionsByName st !! l) → l ∈ _values st.
Proof.
  unfold candidate. rewrite uniqBy_deduplicate. split.
  - intros [= Hvalues Hoptions].
    pose proof (deduplicate_NoDup (initialValue st)) as Hnd.
    split; [by rewrite <- Hvalues|].
    intros l [o Hl]. rewrite <- Hoptions in Hl.
    apply collect_options_lookup in Hl; [|done].
    apply deduplicate_subseteq, initialValue_elem in Hl. tauto.
  - intros [Hnd Hkeys].
    rewrite deduplicate_id by by rewrite initialValue_labels.
    rewrite initialValue_labels. f_equal.
    apply map_eq. intros l. apply option_eq. intros o.
    rewrite collect_options_lookup by by rewrite initialValue_labels.
    rewrite initialValue_elem. split; [tauto|]. intros Hl. split; [|done].
    apply Hkeys. by exists o.
Qed.

(** Starting to edit builds a token field over the held values. *)
Lemma start_editing (st : ChoiceListEntry) (e : Event) :
  e = ClickEdit ∨ e = ClickListBox →
  _isEditing st = false →
  step st e
  = ({| _isEditing := true;
        _tokenFieldHolder := Some (mkTokenField (initialValue st) []);
        _values := _values st;
        _choiceOptionsByName := _choiceOptionsByName st |}, []).
Proof.
  intros [-> | ->] Hview; unfold step, handle; rewrite Hview; done.
Qed.

Lemma immediate_save (st : ChoiceListEntry) :
  _isEditing st = false →
  snd (run st [ClickEdit; ClickSave]) = []
  ↔ NoDup (_values st)
    ∧ ∀ l, is_Some (_choiceOptionsByName st !! l) → l ∈ _values st.
Proof.
  intros Hview. rewrite <- candidate_unchanged.
  cbn [run]. rewrite (start_editing st ClickEdit) by auto.
  set (st1 := mkEntry _ _ _ _).
  destruct (step st1 ClickSave) as [st2 calls] eqn:Hstep. cbn.
  rewrite app_nil_r.
  destruct (save_editing st1 (mkTokenField (initialValue st) []) eq_refl eq_refl)
    as (_ & Hne & Heq).
  rewrite Hstep in Hne, Heq. cbn in Hne, Heq.
  change (save_candidate (initialValue st) []) with (candidate (initialValue st))
    in Hne, Heq.
  split.
  - intros ->.
    destruct (decide (candidate (initialValue st)
                      = (_values st, _choiceOptionsByName st))) as [|Hc]; [done|].
    by apply Hne in Hc as [? _].
  - by intros [? _]%Heq.
Qed.

(** In edit mode the holder has a token field: every state the editor
    reaches from its creation satisfies it. *)
Lemma editing_has_token_field (events : list Event) (st : ChoiceListEntry) :
  (_isEditing st = true → is_Some (_tokenFieldHolder st)) →
  _isEditing (fst (run st events)) = true →
  is_Some (_tokenFieldHolder (fst (run st events))).
Proof.
  revert st. induction events as [|e events IH]; intros st Hinv; [done|].
  cbn [run].
  assert (_isEditing (fst (step st e)) = true →
          is_Some (_tokenFieldHolder (fst (step st e)))) as Hstep.
  { destruct st as [[] h v o]; cbn in Hinv.
    - destruct Hinv as [tf ->]; [done|].
      destruct e; unfold step, handle, _save, render; cbn; try done.
      all: destruct (negb _ || negb _); cbn; done.
    - destruct e; unfold step, handle, render; cbn; done. }
  specialize (IH (fst (step st e)) Hstep).
  destruct (step st e) as [st1 calls1]. cbn [fst] in *.
  by destruct (run st1 events) as [st2 calls2].
Qed.

(** The comparison of two mappings does not depend on the order in
    which their entries were set; that of two lists does. *)
Lemma isEqual_any_insertion_order (m : ChoiceOptionsByName) (k1 k2 : jsstring)
    (o1 o2 : IChoiceOptions) :
  k1 ≠ k2 →
  isEqual (<[k1 := o1]> (<[k2 := o2]> m)) (<[k2 := o2]> (<[k1 := o1]> m)) = true.
Proof.
  intros Hne. unfold isEqual. apply bool_decide_eq_true_2.
  by apply insert_insert_ne.
Qed.

Example isEqual_list_order : isEqual [js "A"; js "B"] [js "B"; js "A"] = false.
Proof. reflexivity. Qed.

(** C1.  In an edit session, a save (the Save button or the Enter key)
    calls [_onSave], with the candidate, exactly when the candidate
    differs from the values and the options held; when they are equal
    the editor goes to view mode without a call.  They are equal when
    the labels are the same list and the two mappings give every label
    the same options.  Starting to edit and saving at once makes no
    call when the held values have no duplicate and every key of the
    held mapping is one of them, and only then. *)
Theorem save_calls_iff_changed (st : ChoiceListEntry) (tokenField : TokenField) :
  _isEditing st = true →
  _tokenFieldHolder st = Some tokenField →
  let cand := save_candidate (tokensObs tokenField)
                             (getTextInputValue tokenField) in
  step st KeyEnter = step st ClickSave
  ∧ (snd (step st ClickSave) = [cand]
     ↔ cand ≠ (_values st, _choiceOptionsByName st))
  ∧ (cand = (_values st, _choiceOptionsByName st) →
     snd (step st ClickSave) = []
     ∧ _isEditing (fst (step st ClickSave)) = false)
  ∧ (cand = (_values st, _choiceOptionsByName st)
     ↔ fst cand = _values st
       ∧ ∀ l, snd cand !! l = _choiceOptionsByName st !! l)
  ∧ (∀ st0 : ChoiceListEntry,
       _isEditing st0 = false →
       snd (run st0 [ClickEdit; ClickSave]) = []
       ↔ NoDup (_values st0)
         ∧ ∀ l, is_Some (_choiceOptionsByName st0 !! l) → l ∈ _values st0).
Proof.
  intros Hedit Hholder cand.
  destruct (save_editing st tokenField Hedit Hholder) as (Hkey & Hne & Heq).
  fold cand in Hne, Heq.
  split; [done|]. split; [|split; [done|split]].
  - split; [|by intros [? _]%Hne].
    intros Hcall Hcand. apply Heq in Hcand as [Hnil _]. congruence.
  - destruct cand as [newValues newOptions]. cbn. split.
    + by intros [= -> ->].
    + intros [-> Hlookup]. f_equal. by apply map_eq.
  - apply immediate_save.
Qed.

(** The example of the specification: with the values A and B and no
    options, starting to edit and saving at once makes no call. *)
Lemma save_calls_iff_changed_witness :
  snd (run (create [js "A"; js "B"] ∅) [ClickEdit; ClickSave]) = [].
Proof.
  pose proof (save_calls_iff_changed
                (fst (step (create [js "A"; js "B"] ∅) ClickEdit))
                (mkTokenField [mkChoiceItem (js "A") None;
                               mkChoiceItem (js "B") None] [])
                eq_refl eq_refl) as (_ & _ & Hsame & _).
  apply Hsame. vm_compute. reflexivity.
Defined.

(** With a key of the held mapping that is not a held value, saving at
    once calls [_onSave]: the candidate has no entry for that key. *)
Lemma immediate_save_drops_stale_options :
  snd (run (create [js "A"; js "B"]
                   {[ js "C" := mkOptions (js "#000") (js "#f00") ]})
           [ClickEdit; ClickSave])
  = [([js "A"; js "B"], ∅)].
Proof. vm_compute. reflexivity. Qed.

(** With a label held twice, saving at once calls [_onSave] with the
    deduplicated values. *)
Example immediate_save_drops_duplicates :
  snd (run (create [js "A"; js "A"] ∅) [ClickEdit; ClickSave])
  = [([js "A"], ∅)].
Proof. vm_compute. reflexivity. Qed.

(** ** Cancelling *)

(** The token field of a session that has ended is never read again:
    two editors in the same view answer every event alike. *)
Lemma step_same_view (st1 st2 : ChoiceListEntry) (e : Event) :
  same_view st1 st2 →
  snd (step st1 e) = snd (step st2 e)
  ∧ same_view (fst (step st1 e)) (fst (step st2 e)).
Proof.
  destruct st1 as [b1 h1 v1 o1], st2 as [b2 h2 v2 o2].
  unfold same_view. cbn. intros (<- & <- & <- & Hholder).
  destruct b1; [rewrite <- Hholder by done|];
    destruct e; unfold step, handle, _save, render; cbn; try done.
  all: destruct h1 as [tf|]; cbn; try done.
  all: destruct (candidate _) as [newValues newOptions]; cbn.
  all: destruct (negb _ || negb _); cbn; done.
Qed.

Lemma run_same_view (events : list Event) (st1 st2 : ChoiceListEntry) :
  same_view st1 st2 →
  snd (run st1 events) = snd (run st2 events)
  ∧ same_view (fst (run st1 events)) (fst (run st2 events)).
Proof.
  revert st1 st2. induction events as [|e events IH]; intros st1 st2 Hsame.
  - done.
  - cbn [run]. destruct (step_same_view st1 st2 e Hsame) as [Hcalls Hnext].
    destruct (step st1 e) as [st1' calls1], (step st2 e) as [st2' calls2].
    cbn in Hcalls, Hnext. subst calls2.
    destruct (IH st1' st2' Hnext) as [Hcalls' Hlast].
    destruct (run st1' events) as [st1'' calls1'],
             (run st2' events) as [st2'' calls2'].
    cbn in *. by subst.
Qed.

(** C6.  In edit mode, a change of the values observable from outside
    acts as a cancel: the editor goes to view mode, [_onSave] is not
    called, the values are the ones set from outside and the options
    are untouched, and the session in progress is dropped: from then on
    the editor answers every sequence of events as an editor newly
    created over the values and options now held. *)
Theorem values_change_cancels (st : ChoiceListEntry) (values : list jsstring) :
  _isEditing st = true →
  let st' := fst (step st (ValuesChange values)) in
  st' = fst (step (set_values values st) ClickCancel)
  ∧ _isEditing st' = false
  ∧ snd (step st (ValuesChange values)) = []
  ∧ _values st' = values
  ∧ _choiceOptionsByName st' = _choiceOptionsByName st
  ∧ ∀ events : list Event,
      snd (run st' events)
      = snd (run (create values (_choiceOptionsByName st)) events)
      ∧ same_view (fst (run st' events))
                  (fst (run (create values (_choiceOptionsByName st)) events)).
Proof.
  intros Hedit st'. subst st'. unfold step at 1 2 3 4 5, handle. cbn.
  rewrite Hedit. cbn. repeat split; try done.
  all: apply run_same_view; unfold same_view; cbn; done.
Qed.

Lemma values_change_cancels_witness :
  _isEditing
    (fst (step (fst (run (create [js "A"; js "B"] ∅)
                         [ClickEdit;
                          TokenFieldChange [mkChoiceItem (js "A") None] (js "C")]))
               (ValuesChange [js "A"])))
  = false.
Proof.
  apply (values_change_cancels
           (fst (run (create [js "A"; js "B"] ∅)
                     [ClickEdit;
                      TokenFieldChange [mkChoiceItem (js "A") None] (js "C")]))
           [js "A"] eq_refl).
Defined.

(** A change of the options observable alone has no listener: the
    editor stays in edit mode. *)
Lemma options_change_keeps_editing :
  _isEditing
    (fst (run (create [js "A"] ∅)
              [ClickEdit;
               OptionsChange {[ js "A" := mkOptions (js "#000") (js "#f00") ]}]))
  = true.
Proof. vm_compute. reflexivity. Qed.

(** ** Calls of the save callback in a session *)

(** An event makes at most one call, and a call leaves the editor in
    edit mode. *)
Lemma step_calls (st : ChoiceListEntry) (e : Event) :
  snd (step st e) = []
  ∨ (∃ call, snd (step st e) = [call])
    ∧ _isEditing st = true ∧ _isEditing (fst (step st e)) = true.
Proof.
  destruct st as [b h v o].
  destruct e; unfold step, handle, _save, render; cbn; destruct b; cbn; auto.
  all: destruct h as [tf|]; cbn; auto.
  all: destruct (negb _ || negb _); cbn; eauto.
Qed.

Lemma step_values_change (st : ChoiceListEntry) (values : list jsstring) :
  snd (step st (ValuesChange values)) = []
  ∧ _isEditing (fst (step st (ValuesChange values))) = false.
Proof. unfold step, handle, render. cbn. by rewrite andb_false_r. Qed.

Lemma pair_differs {A B : Type} `{EqDecision A, EqDecision B}
    (a c : A) (b d : B) :
  negb (isEqual (a, b) (c, d)) = negb (isEqual c a) || negb (isEqual d b).
Proof.
  unfold isEqual.
  destruct (decide (c = a)) as [->|Ha], (decide (d = b)) as [->|Hb].
  - by rewrite !bool_decide_eq_true_2.
  - rewrite (bool_decide_eq_false_2 (d = b)) by done.
    rewrite bool_decide_eq_false_2 by congruence. by rewrite orb_true_r.
  - rewrite (bool_decide_eq_false_2 (c = a)) by done.
    by rewrite bool_decide_eq_false_2 by congruence.
  - rewrite (bool_decide_eq_false_2 (c = a)) by done.
    by rewrite bool_decide_eq_false_2 by congruence.
Qed.

(** An event makes one call when it is a differing save, and none
    otherwise; a differing save leaves the editor in edit mode. *)
Lemma step_differing_save (st : ChoiceListEntry) (e : Event) :
  length (snd (step st e)) = (if differing_save st e then 1 else 0)%nat
  ∧ (differing_save st e = true →
     _isEditing st = true ∧ _isEditing (fst (step st e)) = true).
Proof.
  destruct st as [b h v o]. unfold differing_save.
  destruct e; unfold step, handle, _save, render; cbn; destruct b; cbn;
    try done.
  all: destruct h as [tf|]; cbn; try done.
  all: unfold save_candidate, candidate; rewrite pair_differs.
  all: destruct (negb _ || negb _); cbn; done.
Qed.

(** The calls of the session in progress are counted to its end. *)
Lemma session_calls_reaches (events : list Event) (st : ChoiceListEntry)
    (n : nat) :
  _isEditing st = true →
  ∃ k, k ∈ session_calls st n events ∧ (n ≤ k)%nat.
Proof.
  revert st n. induction events as [|e events IH]; intros st n Hedit;
    cbn [session_calls].
  - rewrite Hedit. exists n. split; [left|lia].
  - destruct (step st e) as [st' calls]. rewrite Hedit. cbn [andb].
    destruct (_isEditing st') eqn:Hedit'; cbn [negb].
    + destruct (IH st' (n + length calls)%nat Hedit') as (k & Hk & Hle).
      exists k. split; [done|lia].
    + exists (n + length calls)%nat. split; [left|lia].
Qed.

Lemma session_calls_no_resave (events : list Event) :
  ∀ (st : ChoiceListEntry) (called : bool),
    (called = true → _isEditing st = true) →
    Forall (λ calls, (calls ≤ 1)%nat)
           (session_calls st (if called then 1 else 0) events)
    ↔ no_resave st called events = true.
Proof.
  induction events as [|e events IH]; intros st called Hcalled;
    cbn [session_calls no_resave].
  { split; [done|]. intros _.
    destruct (_isEditing st); [|done]. constructor; [|done].
    destruct called; cbn; lia. }
  destruct (step_differing_save st e) as [Hlen Hsave].
  destruct (step st e) as [st' calls]. cbn [fst snd] in *. rewrite Hlen.
  destruct (differing_save st e).
  - (* a differing save: one more call, the session goes on *)
    destruct (Hsave eq_refl) as [Hedit Hedit']. rewrite Hedit, Hedit'.
    cbn [andb negb orb]. rewrite andb_true_r, orb_true_r.
    destruct called; cbn [negb andb].
    + split; [|done]. intros Hall.
      destruct (session_calls_reaches events st' 2 Hedit') as (k & Hk & Hle).
      rewrite Forall_forall in Hall. specialize (Hall k Hk). cbn in Hall. lia.
    + by apply (IH st' true).
  - (* no call *)
    rewrite Nat.add_0_r, andb_false_r, orb_false_r. cbn [negb andb].
    destruct (_isEditing st && negb (_isEditing st')) eqn:Hends.
    + apply andb_true_iff in Hends as [_ Hview%negb_true_iff].
      rewrite Hview. cbn [andb]. rewrite <- (IH st' false) by done.
      rewrite Forall_cons. split; [tauto|]. intros Hall. split; [|done].
      destruct called; cbn; lia.
    + assert (called = true → _isEditing st' = true) as Hcalled'.
      { intros Hc. rewrite (Hcalled Hc) in Hends. cbn in Hends.
        by apply negb_false_iff in Hends. }
      rewrite <- (IH st' (_isEditing st' && called)).
      * destruct called; [by rewrite Hcalled'|by rewrite andb_false_r].
      * by intros [? _]%andb_true_iff.
Qed.

(** C8.  An event calls [_onSave] at most once, and a call leaves the
    editor in edit mode.  No edit session has more than one call
    exactly when no save is triggered, after a call in the same
    session, while the candidate still differs from the values and
    options held. *)
Theorem at_most_one_call_per_session (st : ChoiceListEntry)
    (events : list Event) :
  (Forall (λ calls, (calls ≤ 1)%nat) (session_calls st 0 events)
   ↔ no_resave st false events = true)
  ∧ (∀ e, (length (snd (step st e)) ≤ 1)%nat)
  ∧ (∀ e, snd (step st e) ≠ [] → _isEditing (fst (step st e)) = true).
Proof.
  split; [by apply (session_calls_no_resave events st false)|].
  split; intros e; destruct (step_calls st e) as [Hnil|((call & Hcall) & _ & Hedit)].
  - rewrite Hnil. cbn. lia.
  - rewrite Hcall. cbn. lia.
  - by rewrite Hnil.
  - done.
Qed.

(** Sessions with one call each: the session ends by a change of the
    values after a change of the options, by a cancel, and by a second
    save once the tokens are back to the values held. *)
Lemma at_most_one_call_per_session_witness :
  Forall (λ calls, (calls ≤ 1)%nat)
    (session_calls (create [js "A"; js "B"] ∅) 0
       [ClickEdit;
        TokenFieldChange [mkChoiceItem (js "A") None;
                          mkChoiceItem (js "B") None] (js "C");
        ClickSave; OptionsChange ∅;
        ValuesChange [js "A"; js "B"; js "C"];
        ClickEdit; TokenFieldChange [] []; KeyEnter; ClickCancel;
        ClickListBox; TokenFieldChange [] []; ClickSave;
        TokenFieldChange [mkChoiceItem (js "A") None;
                          mkChoiceItem (js "B") None;
                          mkChoiceItem (js "C") None] [];
        ClickSave]).
Proof.
  apply (proj1 (at_most_one_call_per_session (create [js "A"; js "B"] ∅) _)).
  vm_compute. reflexivity.
Defined.

Example sessions_with_one_call :
  session_calls (create [js "A"; js "B"] ∅) 0
    [ClickEdit;
     TokenFieldChange [mkChoiceItem (js "A") None;
                       mkChoiceItem (js "B") None] (js "C");
     ClickSave; OptionsChange ∅;
     ValuesChange [js "A"; js "B"; js "C"];
     ClickEdit; TokenFieldChange [] []; KeyEnter; ClickCancel;
     ClickListBox; TokenFieldChange [] []; ClickSave;
     TokenFieldChange [mkChoiceItem (js "A") None;
                       mkChoiceItem (js "B") None;
                       mkChoiceItem (js "C") None] [];
     ClickSave]
  = [1; 1; 1]%nat.
Proof. vm_compute. reflexivity. Qed.

Example host_applied_session :
  session_calls (create [js "A"; js "B"] ∅) 0
    [ClickEdit;
     TokenFieldChange [mkChoiceItem (js "A") None;
                       mkChoiceItem (js "B") None] (js "C");
     ClickSave;
     ValuesChange [js "A"; js "B"; js "C"];
     ClickEdit; ClickCancel]
  = [1; 0]%nat.
Proof. vm_compute. reflexivity. Qed.

(** Without a change of the values after the first call, a second save
    in the same session calls [_onSave] again. *)
Lemma two_calls_in_one_session :
  session_calls (create [js "A"; js "B"] ∅) 0
    [ClickEdit;
     TokenFieldChange [mkChoiceItem (js "A") None;
                       mkChoiceItem (js "B") None] (js "C");
     ClickSave; ClickSave]
  = [2]%nat
  ∧ snd (run (create [js "A"; js "B"] ∅)
           [ClickEdit;
            TokenFieldChange [mkChoiceItem (js "A") None;
                              mkChoiceItem (js "B") None] (js "C");
            ClickSave; ClickSave])
    = [([js "A"; js "B"; js "C"], ∅); ([js "A"; js "B"; js "C"], ∅)].
Proof. vm_compute. split; reflexivity. Qed.

(** ** View mode *)

Lemma slice0_take {A : Type} (l : list A) (end_ : Z) :
  (0 ≤ end_ ≤ Z.of_nat (length l))%Z →
  slice0 l end_ = take (Z.to_nat end_) l.
Proof.
  intros Hend. unfold slice0.
  destruct (Z.ltb_spec end_ 0); [lia|].
  by rewrite Z.min_l by lia.
Qed.

(** X15.  For a row cap of at least 2, or one the number [n] of values
    does not exceed, view mode shows the rows of the reference
    definition: with no value, the one row saying that no choices are
    configured; with at most [maxRows] values, one row for each value;
    with more, the first [maxRows - 1] values and then the row
    [+N more] with [N = n - (maxRows - 1)]. *)
Theorem view_rows_reference (maxRows : Z) (st : ChoiceListEntry) :
  (maxRows < Z.of_nat (length (_values st)) → 2 ≤ maxRows)%Z →
  buildDom_view maxRows st
  = reference_rows maxRows (_values st) (_choiceOptionsByName st)
  ∧ (length (_values st) = 0%nat →
     buildDom_view maxRows st = [TextRow (js "No choices configured")])
  ∧ ((0 < Z.of_nat (length (_values st)) ≤ maxRows)%Z →
     buildDom_view maxRows st
     = map (choice_row (_choiceOptionsByName st)) (_values st))
  ∧ ((maxRows < Z.of_nat (length (_values st)))%Z →
     buildDom_view maxRows st
     = map (choice_row (_choiceOptionsByName st))
           (take (Z.to_nat (maxRows - 1)) (_values st))
       ++ [more_row (Z.of_nat (length (_values st)) - (maxRows - 1))]
     ∧ length (take (Z.to_nat (maxRows - 1)) (_values st))
       = Z.to_nat (maxRows - 1)).
Proof.
  intros Hcap. destruct st as [b h values o]. cbn [_values _choiceOptionsByName] in *.
  unfold buildDom_view, reference_rows, someValues. cbn [_values _choiceOptionsByName].
  set (n := Z.of_nat (length values)) in *.
  destruct (Z.leb_spec n maxRows) as [Hle|Hgt].
  - (* all the values are shown *)
    assert ((n >? maxRows)%Z = false) as -> by lia.
    rewrite app_nil_r.
    destruct values as [|val values]; cbn [length Nat.eqb]; cbn in n.
    + repeat split; try done; lia.
    + assert ((n =? 0)%Z = false) as -> by lia.
      repeat split; try done; lia.
  - (* the first maxRows - 1 values and the summary *)
    specialize (Hcap Hgt).
    assert ((n >? maxRows)%Z = true) as -> by lia.
    assert ((n =? 0)%Z = false) as -> by lia.
    rewrite slice0_take by (fold n; lia).
    assert (length (take (Z.to_nat (maxRows - 1)) values)
            = Z.to_nat (maxRows - 1)) as Hlen
      by (rewrite length_take; unfold n in *; lia).
    rewrite Hlen.
    assert ((Z.to_nat (maxRows - 1) =? 0)%nat = false) as ->
      by (apply Nat.eqb_neq; lia).
    cbn [app]. repeat split; try done.
    + intros Hnil. unfold n in *. lia.
    + lia.
Qed.

(** The example of the specification: seven values under a cap of six
    show five values and the row [+2 more]. *)
Lemma view_rows_reference_witness :
  buildDom_view 6 (create [js "A"; js "B"; js "C"; js "D"; js "E"; js "F"; js "G"] ∅)
  = [ChoiceRow UNSET_COLOR (js "A"); ChoiceRow UNSET_COLOR (js "B");
     ChoiceRow UNSET_COLOR (js "C"); ChoiceRow UNSET_COLOR (js "D");
     ChoiceRow UNSET_COLOR (js "E"); TextRow (js "+2 more")].
Proof.
  refine (proj1 (view_rows_reference 6
    (create [js "A"; js "B"; js "C"; js "D"; js "E"; js "F"; js "G"] ∅) _)).
  cbn. lia.
Defined.

Example view_rows_none :
  buildDom_view 6 (create [] ∅) = [TextRow (js "No choices configured")].
Proof. reflexivity. Qed.

(** C7.  Under a row cap of one, two values show the row saying that
    no choices are configured, although there are choices, and then the
    row [+2 more]: two rows, where the reference definition has the
    summary row alone. *)
Lemma view_rows_cap_one :
  buildDom_view 1 (create [js "A"; js "B"] ∅)
  = [TextRow (js "No choices configured"); TextRow (js "+2 more")]
  ∧ reference_rows 1 [js "A"; js "B"] ∅ = [TextRow (js "+2 more")].
Proof. split; reflexivity. Qed.

Example view_rows_cap_zero :
  buildDom_view 0 (create [js "A"; js "B"; js "C"] ∅)
  = [ChoiceRow UNSET_COLOR (js "A"); ChoiceRow UNSET_COLOR (js "B");
     TextRow (js "+4 more")].
Proof. reflexivity. Qed.

(** ** JSON: parsing what was printed *)

Local Ltac Zify.zify_post_hook ::= Z.to_euclidean_division_equations.

Lemma hex_value_digit (d : N) : d < 16 → hex_value (hex_digit d) = Some d.
Proof.
  intros Hd. unfold hex_value, hex_digit, is_digit.
  destruct (N.ltb_spec d 10).
  - assert ((48 <=? 48 + d) && (48 + d <=? 57) = true) as ->
      by (apply andb_true_iff; split; apply N.leb_le; lia).
    f_equal. lia.
  - assert ((48 <=? 87 + d) && (87 + d <=? 57) = false) as ->
      by (apply andb_false_iff; right; apply N.leb_gt; lia).
    assert ((97 <=? 87 + d) && (87 + d <=? 102) = true) as ->
      by (apply andb_true_iff; split; apply N.leb_le; lia).
    f_equal. lia.
Qed.

Lemma hex4_UnicodeEscape (c : N) :
  c < 65536 →
  hex4 (hex_digit (c / 4096 mod 16)) (hex_digit (c / 256 mod 16))
       (hex_digit (c / 16 mod 16)) (hex_digit (c mod 16)) = Some c.
Proof.
  intros Hc. unfold hex4.
  rewrite !hex_value_digit by (apply N.mod_lt; lia). cbn.
  f_equal. lia.
Qed.

Lemma parse_chars_UnicodeEscape (c : N) (tail : jsstring) :
  c < 65536 →
  parse_chars (UnicodeEscape c ++ tail) = cons_char c (parse_chars tail).
Proof.
  intros Hc. unfold UnicodeEscape. cbn [app parse_chars].
  change (92 =? 34) with false. change (92 =? 92) with true.
  change (117 =? 117) with true. cbv iota.
  by rewrite hex4_UnicodeEscape.
Qed.

Lemma parse_chars_literal (c : N) (tail : jsstring) :
  32 ≤ c → c ≠ 34 → c ≠ 92 →
  parse_chars (c :: tail) = cons_char c (parse_chars tail).
Proof.
  intros Hc Hq Hb. cbn [parse_chars].
  rewrite (proj2 (N.eqb_neq c 34)), (proj2 (N.eqb_neq c 92)) by done.
  by rewrite (proj2 (N.ltb_ge c 32)).
Qed.

Lemma parse_chars_quote_char (c : N) (tail : jsstring) :
  parse_chars (quote_char c ++ tail) = cons_char c (parse_chars tail).
Proof.
  unfold quote_char.
  destruct (N.eqb_spec c 34) as [->|?]; [done|].
  destruct (N.eqb_spec c 92) as [->|?]; [done|].
  destruct (N.eqb_spec c 8) as [->|?]; [done|].
  destruct (N.eqb_spec c 12) as [->|?]; [done|].
  destruct (N.eqb_spec c 10) as [->|?]; [done|].
  destruct (N.eqb_spec c 13) as [->|?]; [done|].
  destruct (N.eqb_spec c 9) as [->|?]; [done|].
  destruct (N.ltb_spec c 32).
  - apply parse_chars_UnicodeEscape. lia.
  - by apply parse_chars_literal.
Qed.

Lemma surrogate_bound (c : N) :
  is_leading_surrogate c || is_trailing_surrogate c = true → c < 65536.
Proof.
  unfold is_leading_surrogate, is_trailing_surrogate.
  rewrite orb_true_iff, !andb_true_iff, !N.leb_le. lia.
Qed.

Lemma surrogate_literal (c : N) (tail : jsstring) :
  is_leading_surrogate c || is_trailing_surrogate c = true →
  parse_chars (c :: tail) = cons_char c (parse_chars tail).
Proof.
  unfold is_leading_surrogate, is_trailing_surrogate.
  rewrite orb_true_iff, !andb_true_iff, !N.leb_le. intros Hc.
  apply parse_chars_literal; lia.
Qed.

Lemma parse_chars_quote_chars (n : nat) (s rest : jsstring) :
  (length s ≤ n)%nat →
  parse_chars (quote_chars s ++ 34 :: rest) = Some (s, rest).
Proof.
  revert s. induction n as [|n IH]; intros [|c r] Hlen; cbn in Hlen;
    try done; try lia.
  cbn [quote_chars].
  destruct (is_leading_surrogate c) eqn:Hlead.
  - assert (c < 65536) as Hc by (apply surrogate_bound; by rewrite Hlead).
    destruct r as [|d r'].
    + by rewrite parse_chars_UnicodeEscape.
    + destruct (is_trailing_surrogate d) eqn:Htrail.
      * cbn [app].
        rewrite (surrogate_literal c) by by rewrite Hlead.
        rewrite (surrogate_literal d) by (rewrite Htrail; apply orb_true_r).
        rewrite IH by (cbn in Hlen; lia). done.
      * rewrite <- app_assoc, parse_chars_UnicodeEscape by done.
        rewrite IH by lia. done.
  - destruct (is_trailing_surrogate c) eqn:Htrail.
    + assert (c < 65536) as Hc
        by (apply surrogate_bound; by rewrite Htrail, orb_true_r).
      rewrite <- app_assoc, parse_chars_UnicodeEscape by done.
      rewrite IH by lia. done.
    + rewrite <- app_assoc, parse_chars_quote_char.
      rewrite IH by lia. done.
Qed.

Lemma parse_chars_QuoteJSONString (s rest : jsstring) :
  ∃ body, QuoteJSONString s ++ rest = 34 :: body
          ∧ parse_chars body = Some (s, rest).
Proof.
  exists (quote_chars s ++ 34 :: rest). split.
  - unfold QuoteJSONString. cbn. by rewrite <- app_assoc.
  - by apply (parse_chars_quote_chars (length s)).
Qed.

(** The equations of the parser at the tokens that open a value. *)
Lemma parse_value_string (fuel : nat) (r : jsstring) :
  parse_value (S fuel) (34 :: r)
  = '(str, rest) ← parse_chars r; Some (JString str, rest).
Proof. reflexivity. Qed.

Lemma parse_value_array (fuel : nat) (r : jsstring) :
  parse_value (S fuel) (91 :: r)
  = match skip_ws r with
    | [] => None
    | c1 :: r1 =>
        if c1 =? 93 then Some (JArray [], r1)
        else '(items, rest) ← parse_elements fuel (c1 :: r1);
             Some (JArray items, rest)
    end.
Proof. reflexivity. Qed.

Lemma parse_value_object (fuel : nat) (r : jsstring) :
  parse_value (S fuel) (123 :: r)
  = match skip_ws r with
    | [] => None
    | c1 :: r1 =>
        if c1 =? 125 then Some (JObject [], r1)
        else '(props, rest) ← parse_members fuel (c1 :: r1);
             Some (JObject props, rest)
    end.
Proof. reflexivity. Qed.

Lemma parse_elements_S (fuel : nat) (s : jsstring) :
  parse_elements (S fuel) s
  = '(v, r) ← parse_value fuel s;
    match skip_ws r with
    | [] => None
    | c :: r1 =>
        if c =? 44 then
          '(vs, rest) ← parse_elements fuel (skip_ws r1);
          Some (v :: vs, rest)
        else if c =? 93 then Some ([v], r1)
        else None
    end.
Proof. reflexivity. Qed.

Lemma parse_members_S (fuel : nat) (r : jsstring) :
  parse_members (S fuel) (34 :: r)
  = '(key, r1) ← parse_chars r;
    match skip_ws r1 with
    | [] => None
    | c1 :: r2 =>
        if c1 =? 58 then
          '(v, r3) ← parse_value fuel (skip_ws r2);
          match skip_ws r3 with
          | [] => None
          | c2 :: r4 =>
              if c2 =? 44 then
                '(ms, rest) ← parse_members fuel (skip_ws r4);
                Some ((key, v) :: ms, rest)
              else if c2 =? 125 then Some ([(key, v)], r4)
              else None
          end
        else None
    end.
Proof. reflexivity. Qed.

Lemma JSON_stringify_object (props : list (jsstring * JSON)) :
  JSON_stringify (JObject props) = 123 :: separated print_member 125 props.
Proof. reflexivity. Qed.

Lemma skip_ws_head (c : N) (r : jsstring) :
  is_ws c = false → skip_ws (c :: r) = c :: r.
Proof. intros Hc. cbn. by rewrite Hc. Qed.

Lemma take_digits_app (s rest ds r : jsstring) :
  take_digits s = (ds, r) →
  (r = [] → delimited rest = true) →
  take_digits (s ++ rest) = (ds, r ++ rest).
Proof.
  revert ds. induction s as [|c s IH]; intros ds Htake Hrest; cbn in Htake |- *.
  - injection Htake as <- <-. cbn.
    destruct rest as [|c rest]; [done|]. cbn in Hrest |- *.
    destruct (is_digit c); [by specialize (Hrest eq_refl)|done].
  - destruct (is_digit c).
    + destruct (take_digits s) as [ds' r'] eqn:Hs.
      injection Htake as <- <-. by rewrite (IH ds').
    + by injection Htake as <- <-.
Qed.

Lemma delimited_head (rest : jsstring) (c : N) (r : jsstring) :
  delimited rest = true → rest = c :: r →
  is_digit c = false ∧ (c =? 46) = false ∧ (c =? 101) = false ∧ (c =? 69) = false.
Proof.
  intros Hd ->. cbn in Hd. apply negb_true_iff in Hd.
  rewrite !orb_false_iff in Hd. tauto.
Qed.

Lemma parse_int_part_app (s rest i r : jsstring) :
  parse_int_part s = Some (i, r) →
  (r = [] → delimited rest = true) →
  parse_int_part (s ++ rest) = Some (i, r ++ rest).
Proof.
  destruct s as [|c s]; [done|]. cbn.
  destruct (c =? 48); [by intros [= <- <-]|].
  destruct (is_digit c); [|done].
  destruct (take_digits s) as [ds r'] eqn:Hs. intros [= <- <-] Hrest.
  by rewrite (take_digits_app s rest ds r').
Qed.

Lemma parse_frac_part_app (s rest f r : jsstring) :
  parse_frac_part s = Some (f, r) →
  (r = [] → delimited rest = true) →
  parse_frac_part (s ++ rest) = Some (f, r ++ rest).
Proof.
  destruct s as [|c s]; cbn.
  - intros [= <- <-] Hrest. destruct rest as [|c rest]; [done|]. cbn.
    destruct (delimited_head (c :: rest) c rest) as (_ & -> & _); auto.
  - destruct (c =? 46); [|by intros [= <- <-]].
    destruct (take_digits s) as [ds r'] eqn:Hs. intros Hf Hrest.
    destruct ds as [|d ds]; [done|]. injection Hf as <- <-.
    by rewrite (take_digits_app s rest (d :: ds) r').
Qed.

Lemma parse_exp_digits_app (pre s rest x r : jsstring) :
  parse_exp_digits pre s = Some (x, r) →
  (r = [] → delimited rest = true) →
  parse_exp_digits pre (s ++ rest) = Some (x, r ++ rest).
Proof.
  unfold parse_exp_digits.
  destruct (take_digits s) as [ds r'] eqn:Hs. intros Hx Hrest.
  destruct ds as [|d ds]; [done|]. injection Hx as <- <-.
  by rewrite (take_digits_app s rest (d :: ds) r').
Qed.

Lemma parse_exp_part_app (s rest x r : jsstring) :
  parse_exp_part s = Some (x, r) →
  (r = [] → delimited rest = true) →
  parse_exp_part (s ++ rest) = Some (x, r ++ rest).
Proof.
  destruct s as [|c s]; cbn.
  - intros [= <- <-] Hrest. destruct rest as [|c rest]; [done|]. cbn.
    destruct (delimited_head (c :: rest) c rest) as (_ & _ & -> & ->); auto.
  - destruct ((c =? 101) || (c =? 69)); [|by intros [= <- <-]].
    destruct s as [|sg s]; [done|]. cbn.
    destruct ((sg =? 43) || (sg =? 45)).
    + apply parse_exp_digits_app.
    + apply (parse_exp_digits_app [c] (sg :: s)).
Qed.

Lemma parse_number_app (s rest l r : jsstring) :
  parse_number s = Some (l, r) →
  (r = [] → delimited rest = true) →
  parse_number (s ++ rest) = Some (l, r ++ rest).
Proof.
  unfold parse_number. intros Hparse Hrest.
  assert (∀ s1 sign,
    (parse_int_part s1 ≫= λ '(int, s2),
       parse_frac_part s2 ≫= λ '(frac, s3),
         parse_exp_part s3 ≫= λ '(exp, s4),
           Some (sign ++ int ++ frac ++ exp, s4)) = Some (l, r) →
    (parse_int_part (s1 ++ rest) ≫= λ '(int, s2),
       parse_frac_part s2 ≫= λ '(frac, s3),
         parse_exp_part s3 ≫= λ '(exp, s4),
           Some (sign ++ int ++ frac ++ exp, s4)) = Some (l, r ++ rest)) as Hbody.
  { intros s1 sign Hs1.
    destruct (parse_int_part s1) as [[int s2]|] eqn:Hint; [|done]. cbn in Hs1.
    destruct (parse_frac_part s2) as [[frac s3]|] eqn:Hfrac; [|done]. cbn in Hs1.
    destruct (parse_exp_part s3) as [[exp s4]|] eqn:Hexp; [|done]. cbn in Hs1.
    injection Hs1 as <- <-.
    assert (s3 = [] → s4 = []) as H34
      by (intros ->; cbn in Hexp; by injection Hexp as <- <-).
    assert (s2 = [] → s3 = []) as H23
      by (intros ->; cbn in Hfrac; by injection Hfrac as <- <-).
    rewrite (parse_int_part_app s1 rest int s2) by auto. cbn.
    rewrite (parse_frac_part_app s2 rest frac s3) by auto. cbn.
    rewrite (parse_exp_part_app s3 rest exp s4) by auto. done. }
  destruct s as [|c s]; [done|]. cbn [app].
  destruct (c =? 45); [exact (Hbody s [c] Hparse)|exact (Hbody (c :: s) [] Hparse)].
Qed.

Lemma number_lexeme_head (lexeme : jsstring) :
  number_lexeme lexeme = true →
  ∃ c r, lexeme = c :: r ∧ (c = 45 ∨ is_digit c = true).
Proof.
  unfold number_lexeme. intros Hparse%bool_decide_eq_true.
  destruct lexeme as [|c r]; [done|]. exists c, r. split; [done|].
  unfold parse_number in Hparse.
  destruct (N.eqb_spec c 45) as [->|Hc]; [by left|right].
  unfold parse_int_part in Hparse.
  destruct (N.eqb_spec c 48) as [->|?]; [done|].
  by destruct (is_digit c).
Qed.

Lemma parse_number_lexeme (lexeme rest : jsstring) :
  number_lexeme lexeme = true → delimited rest = true →
  parse_number (lexeme ++ rest) = Some (lexeme, rest).
Proof.
  unfold number_lexeme. intros Hparse%bool_decide_eq_true Hrest.
  by apply (parse_number_app lexeme rest lexeme []).
Qed.

Lemma parse_value_number (fuel : nat) (c : N) (r : jsstring) :
  c = 45 ∨ is_digit c = true →
  parse_value (S fuel) (c :: r)
  = '(lexeme, rest) ← parse_number (c :: r); Some (JNumber lexeme, rest).
Proof.
  intros Hc.
  assert (c ≠ 34 ∧ c ≠ 91 ∧ c ≠ 123 ∧ c ≠ 116 ∧ c ≠ 102 ∧ c ≠ 110)
    as (H1 & H2 & H3 & H4 & H5 & H6).
  { destruct Hc as [->|Hc]; [done|]. unfold is_digit in Hc.
    apply andb_true_iff in Hc as [Hc1%N.leb_le Hc2%N.leb_le]. lia. }
  change (parse_value (S fuel) (c :: r))
    with (if c =? 34 then
            '(str, rest) ← parse_chars r; Some (JString str, rest)
          else if c =? 91 then
            match skip_ws r with
            | [] => None
            | c1 :: r1 =>
                if c1 =? 93 then Some (JArray [], r1)
                else '(items, rest) ← parse_elements fuel (c1 :: r1);
                     Some (JArray items, rest)
            end
          else if c =? 123 then
            match skip_ws r with
            | [] => None
            | c1 :: r1 =>
                if c1 =? 125 then Some (JObject [], r1)
                else '(props, rest) ← parse_members fuel (c1 :: r1);
                     Some (JObject props, rest)
            end
          else if c =? 116 then
            rest ← expect (js "true") (c :: r); Some (JBool true, rest)
          else if c =? 102 then
            rest ← expect (js "false") (c :: r); Some (JBool false, rest)
          else if c =? 110 then
            rest ← expect (js "null") (c :: r); Some (JNull, rest)
          else
            '(lexeme, rest) ← parse_number (c :: r); Some (JNumber lexeme, rest)).
  by rewrite !(proj2 (N.eqb_neq c _)) by done.
Qed.

Lemma JSON_stringify_opens (v : JSON) (rest : jsstring) :
  printable v = true → opens_value (JSON_stringify v ++ rest).
Proof.
  intros Hfree. unfold opens_value.
  destruct v as [|[|]|lexeme|s|items|props]; cbn;
    try (eexists _, _; (split; [reflexivity|]); done).
  destruct (number_lexeme_head lexeme Hfree) as (c & r & -> & Hc).
  exists c, (r ++ rest). split; [done|].
  assert (c ≠ 32 ∧ c ≠ 9 ∧ c ≠ 10 ∧ c ≠ 13 ∧ c ≠ 93 ∧ c ≠ 125)
    as (H1 & H2 & H3 & H4 & H5 & H6).
  { destruct Hc as [->|Hc]; [done|]. unfold is_digit in Hc.
    apply andb_true_iff in Hc as [Hc1%N.leb_le Hc2%N.leb_le]. lia. }
  split; [|done]. apply skip_ws_head. unfold is_ws.
  by rewrite !(proj2 (N.eqb_neq c _)) by done.
Qed.

Lemma separated_opens (x : JSON) (items : list JSON) (rest : jsstring) :
  printable x = true →
  opens_value (separated JSON_stringify 93 (x :: items) ++ rest).
Proof.
  intros Hfree. cbn [separated]. rewrite <- app_assoc.
  by apply JSON_stringify_opens.
Qed.

Lemma separated_cons {A : Type} (print : A → jsstring) (close : N) (x : A)
    (l : list A) :
  separated print close (x :: l)
  = print x ++ match l with
               | [] => [close]
               | _ :: _ => 44 :: separated print close l
               end.
Proof. reflexivity. Qed.

Lemma members_open (kv : jsstring * JSON) (props : list (jsstring * JSON))
    (rest : jsstring) :
  ∃ r, separated print_member 125 (kv :: props) ++ rest = 34 :: r.
Proof. destruct kv as [key v]. cbn. eauto. Qed.

Lemma JSON_stringify_length (v : JSON) :
  printable v = true → (1 ≤ length (JSON_stringify v))%nat.
Proof.
  intros Hfree.
  destruct (JSON_stringify_opens v [] Hfree) as (c & r & Heq & _).
  rewrite app_nil_r in Heq. rewrite Heq. cbn. lia.
Qed.

(** The parser reads back a printed value, when what follows cannot
    continue a number, with fuel for the length of the print. *)
Lemma parse_printed (fuel : nat) :
  (∀ v rest,
     printable v = true →
     delimited rest = true →
     (length (JSON_stringify v) ≤ fuel)%nat →
     parse_value fuel (JSON_stringify v ++ rest) = Some (v, rest))
  ∧ (∀ x items rest,
       forallb printable (x :: items) = true →
       (length (separated JSON_stringify 93 (x :: items)) ≤ fuel)%nat →
       parse_elements fuel (separated JSON_stringify 93 (x :: items) ++ rest)
       = Some (x :: items, rest))
  ∧ (∀ kv props rest,
       forallb (λ kv, match kv with (_, v') => printable v' end)
               (kv :: props) = true →
       (length (separated print_member 125 (kv :: props)) ≤ fuel)%nat →
       parse_members fuel (separated print_member 125 (kv :: props) ++ rest)
       = Some (kv :: props, rest)).
Proof.
  induction fuel as [|fuel (IHv & IHe & IHm)].
  { split; [|split].
    - intros v rest Hfree _ Hlen. apply JSON_stringify_length in Hfree. lia.
    - intros x items rest [Hfree _]%andb_true_iff Hlen.
      apply JSON_stringify_length in Hfree.
      cbn [separated] in Hlen. rewrite length_app in Hlen. lia.
    - intros [key v] props rest _ Hlen. cbn in Hlen. lia. }
  split; [|split].
  - (* a value *)
    intros v rest Hfree Hrest Hlen.
    destruct v as [|[|]|lexeme|s|items|props]; try done.
    + (* a number *)
      cbn [JSON_stringify printable] in Hfree |- *.
      destruct (number_lexeme_head lexeme Hfree) as (c & r & Heq & Hc).
      rewrite Heq. cbn [app]. rewrite parse_value_number by done.
      change (c :: r ++ rest) with ((c :: r) ++ rest). rewrite <- Heq.
      by rewrite parse_number_lexeme.
    + (* a string *)
      cbn [JSON_stringify].
      destruct (parse_chars_QuoteJSONString s rest) as (body & -> & Hbody).
      by rewrite parse_value_string, Hbody.
    + (* an array *)
      cbn [JSON_stringify printable app length] in Hfree, Hlen |- *.
      rewrite parse_value_array.
      destruct items as [|x items]; [done|].
      destruct (separated_opens x items rest) as (c & r & Heq & Hws & Hc & _);
        [by apply andb_true_iff in Hfree as [? _]|].
      rewrite Hws, Heq. rewrite (proj2 (N.eqb_neq c 93)) by done.
      rewrite <- Heq, IHe by (done || lia). done.
    + (* an object *)
      rewrite JSON_stringify_object in Hlen |- *.
      cbn [printable app length] in Hfree, Hlen |- *.
      rewrite parse_value_object.
      destruct props as [|kv props]; [done|].
      destruct (members_open kv props rest) as [r Heq].
      rewrite Heq, (skip_ws_head 34) by done.
      change (34 =? 125) with false. cbv iota.
      rewrite <- Heq, IHm; [done|done|lia].
  - (* the elements of an array *)
    intros x items rest [Hx Hitems]%andb_true_iff Hlen.
    pose proof (JSON_stringify_length x Hx) as Hlenx.
    rewrite separated_cons in Hlen |- *. rewrite length_app in Hlen.
    rewrite <- app_assoc, parse_elements_S, IHv; [|done| |].
    2:{ by destruct items. }
    2:{ destruct items; cbn [length] in Hlen; lia. }
    cbn [mbind option_bind].
    destruct items as [|y items]; [done|].
    cbn [app]. rewrite (skip_ws_head 44) by done. cbv beta iota.
    change (44 =? 44) with true. cbv iota.
    destruct (separated_opens y items rest) as (c & r & Heq & Hws & _);
      [by apply andb_true_iff in Hitems as [? _]|].
    rewrite Hws, IHe; [done|done|]. cbn [length] in Hlen. lia.
  - (* the members of an object *)
    intros [key v] props rest [Hv Hprops]%andb_true_iff Hlen.
    pose proof (JSON_stringify_length v Hv) as Hlenv.
    rewrite separated_cons in Hlen |- *. cbn [print_member] in Hlen |- *.
    unfold QuoteJSONString in Hlen |- *. cbn [app] in Hlen |- *.
    cbn [length] in Hlen. rewrite !length_app in Hlen. cbn [length] in Hlen.
    rewrite <- !app_assoc. cbn [app].
    rewrite parse_members_S.
    rewrite (parse_chars_quote_chars (length key)) by done.
    cbn [mbind option_bind]. rewrite (skip_ws_head 58) by done.
    cbv beta iota. change (58 =? 58) with true. cbv iota.
    destruct (JSON_stringify_opens v
                (match props with
                 | [] => [125]
                 | _ :: _ => 44 :: separated print_member 125 props
                 end ++ rest) Hv) as (c & r & Heq & Hws & _).
    rewrite Hws, IHv; [|done| |lia].
    2:{ by destruct props. }
    cbn [mbind option_bind].
    destruct props as [|kv props]; [done|].
    cbn [app]. rewrite (skip_ws_head 44) by done. cbv beta iota.
    change (44 =? 44) with true. cbv iota.
    destruct (members_open kv props rest) as [r' Heq'].
    rewrite Heq', (skip_ws_head 34) by done.
    rewrite <- Heq', IHm; [done|done|].
    cbn [length] in Hlen. lia.
Qed.

(** [JSON.parse(JSON.stringify(v))] is [v]. *)
Lemma JSON_parse_stringify (v : JSON) :
  printable v = true → JSON_parse (JSON_stringify v) = Some v.
Proof.
  intros Hfree. unfold JSON_parse.
  destruct (JSON_stringify_opens v [] Hfree) as (c & r & _ & Hws & _).
  rewrite app_nil_r in Hws. rewrite Hws.
  destruct (parse_printed (S (length (JSON_stringify v)))) as (Hv & _ & _).
  rewrite <- (app_nil_r (JSON_stringify v)) at 2.
  rewrite Hv by (done || lia). done.
Qed.

Example JSON_parse_stringify_numbers :
  JSON_parse (JSON_stringify
    (JArray [JNumber (js "-1.5e+3"); JObject [(js "n", JNumber (js "0"))];
             JNumber (js "7")]))
  = Some (JArray [JNumber (js "-1.5e+3"); JObject [(js "n", JNumber (js "0"))];
                  JNumber (js "7")]).
Proof. vm_compute. reflexivity. Qed.

(** ** The clipboard codec *)

Lemma JSON_parse_empty : JSON_parse [] = None.
Proof. reflexivity. Qed.

Lemma required_string_prop (v : JSON) (name : jsstring) :
  required_string v name = true →
  prop v name = Some (JString (string_of (prop v name))).
Proof.
  unfold required_string. destruct (prop v name) as [[]|]; done.
Qed.

Lemma checker_reads_as (item : JSON) :
  ChoiceItemChecker_test item = true → reads_as item (as_ChoiceItem item).
Proof.
  unfold ChoiceItemChecker_test, reads_as.
  intros [[_ Hlabel]%andb_true_iff Hoptions]%andb_true_iff.
  split; [by apply required_string_prop|].
  unfold as_ChoiceItem. cbn [options].
  destruct (prop item (js "options")) as [o|]; [|done].
  cbn [fmap option_fmap option_map as_IChoiceOptions textColor fillColor].
  unfold ChoiceOptionsType in Hoptions.
  apply andb_true_iff in Hoptions as [[_ Htext]%andb_true_iff Hfill].
  exists o. auto using required_string_prop.
Qed.

(** Every token is held by some object: the one the constructor builds,
    with the options literal of [_renderToken]. *)
Lemma every_token_is_held (t : ChoiceItem) :
  holds (new_ChoiceItem (label t)
           ((λ o, options_literal (fillColor o) (textColor o)) <$> options t))
        t.
Proof. by destruct t as [l [[tc fc]|]]. Qed.

Lemma holds_all (held : list JSON) (tokens : list ChoiceItem) :
  Forall2 holds held tokens →
  forallb printable held = true
  ∧ forallb ChoiceItemChecker_test held = true
  ∧ map as_ChoiceItem held = tokens.
Proof.
  induction 1 as [|item t held tokens [Hheld Hread] _ (IH1 & IH2 & IH3)];
    [done|].
  apply andb_true_iff in Hheld as [Hprint Hcheck]. cbn.
  rewrite Hprint, Hcheck, IH1, IH2, Hread, IH3. done.
Qed.

Lemma split_nonempty (sep : N) (s : jsstring) : split sep s ≠ [].
Proof.
  destruct s as [|c r]; [done|]. cbn.
  destruct (c =? sep); [done|]. by destruct (split sep r).
Qed.

Lemma join_split (sep : N) (s : jsstring) : join sep (split sep s) = s.
Proof.
  induction s as [|c r IH]; [done|]. cbn [split].
  pose proof (split_nonempty sep r) as Hne.
  destruct (N.eqb_spec c sep) as [->|Hc].
  - destruct (split sep r) as [|piece pieces]; [done|].
    cbn [join app] in *. by rewrite IH.
  - destruct (split sep r) as [|piece pieces]; [done|].
    destruct pieces; cbn [join app] in *; by rewrite <- IH.
Qed.

Lemma split_pieces (sep : N) (s : jsstring) :
  Forall (λ piece, sep ∉ piece) (split sep s).
Proof.
  induction s as [|c r IH]; cbn [split].
  - repeat constructor. apply not_elem_of_nil.
  - destruct (N.eqb_spec c sep) as [->|Hc].
    + constructor; [apply not_elem_of_nil|done].
    + pose proof (split_nonempty sep r) as Hne.
      destruct (split sep r) as [|piece pieces]; [done|].
      apply Forall_cons in IH as [Hpiece Hpieces].
      constructor; [|done]. rewrite not_elem_of_cons. split; [congruence|done].
Qed.

Lemma split_length (sep : N) (s : jsstring) :
  length (split sep s) = S (count_occ N.eq_dec s sep).
Proof.
  induction s as [|c r IH]; [done|]. cbn [split count_occ].
  destruct (N.eqb_spec c sep) as [->|Hc].
  - destruct (N.eq_dec sep sep); [|done]. cbn. by rewrite IH.
  - destruct (N.eq_dec c sep); [done|].
    destruct (split sep r) as [|piece pieces]; [done|]. by rewrite <- IH.
Qed.

(** Without a usable structured field, the decoder takes the text path. *)
Lemma clipboardToChoices_text (clipboard : DataTransfer) :
  getData clipboard (js "application/json") = []
  ∨ JSON_parse (getData clipboard (js "application/json")) = None
  ∨ (∃ v, JSON_parse (getData clipboard (js "application/json")) = Some v
          ∧ token_list_shape v = false) →
  clipboardToChoices clipboard = textToChoices clipboard.
Proof.
  unfold clipboardToChoices, isJSON.
  intros [-> | [-> | (v & -> & Hshape)]]; [done|by rewrite andb_false_r|].
  destruct (truthy _); [|done]. cbn.
  destruct v; try done. cbn in Hshape. by rewrite Hshape.
Qed.

(** C3.  When the structured field parses to a list whose elements all
    have the shape of a token, the decoder returns that list, each
    element read as a token with the label and the colours it holds,
    whatever the plain-text field is. *)
Theorem decode_structured (clipboard : DataTransfer) (items : list JSON) :
  JSON_parse (getData clipboard (js "application/json")) = Some (JArray items) →
  forallb ChoiceItemChecker_test items = true →
  clipboardToChoices clipboard = map as_ChoiceItem items
  ∧ Forall2 reads_as items (clipboardToChoices clipboard).
Proof.
  intros Hparse Hshape.
  assert (clipboardToChoices clipboard = map as_ChoiceItem items) as ->.
  { unfold clipboardToChoices, isJSON. rewrite Hparse, Hshape.
    destruct (getData clipboard (js "application/json")); [|done].
    by rewrite JSON_parse_empty in Hparse. }
  split; [done|].
  apply Forall2_fmap_r, Forall_Forall2_diag, Forall_forall.
  intros item Hin. apply checker_reads_as.
  rewrite forallb_forall in Hshape. by apply Hshape, list_elem_of_In.
Qed.

(** The example of the specification: one token X with its colours,
    whatever the text. *)
Lemma decode_structured_witness :
  clipboardToChoices
    (setData (js "text/plain") (js "anything")
       (setData (js "application/json")
          (jsq "[{'label':'X','options':{'fillColor':'#fff','textColor':'#000'}}]")
          ∅))
  = [mkChoiceItem (js "X") (Some (mkOptions (js "#000") (js "#fff")))].
Proof.
  refine (proj1 (decode_structured _
    [JObject [(js "label", JString (js "X"));
              (js "options", JObject [(js "fillColor", JString (js "#fff"));
                                      (js "textColor", JString (js "#000"))])]]
    _ _)).
  - vm_compute. reflexivity.
  - vm_compute. reflexivity.
Defined.

(** C4.  When the structured field is absent, is not JSON, or parses to
    a value that is not a list of tokens, and the plain-text field is
    not empty, the decoder returns one token for each line of the text:
    the labels are the pieces between the newlines, empty pieces
    included, and no token has options. *)
Theorem decode_falls_back_to_text (clipboard : DataTransfer) :
  getData clipboard (js "application/json") = []
  ∨ JSON_parse (getData clipboard (js "application/json")) = None
  ∨ (∃ v, JSON_parse (getData clipboard (js "application/json")) = Some v
          ∧ token_list_shape v = false) →
  getData clipboard (js "text/plain") ≠ [] →
  clipboardToChoices clipboard
  = one_token_per_line (getData clipboard (js "text/plain"))
  ∧ join 10 (map label (clipboardToChoices clipboard))
    = getData clipboard (js "text/plain")
  ∧ Forall (λ t, (10 ∉ label t) ∧ options t = None)
           (clipboardToChoices clipboard)
  ∧ length (clipboardToChoices clipboard)
    = S (count_occ N.eq_dec (getData clipboard (js "text/plain")) 10).
Proof.
  intros Hjson Htext. rewrite clipboardToChoices_text by done.
  unfold textToChoices, one_token_per_line.
  destruct (getData clipboard (js "text/plain")) as [|c text] eqn:Heq; [done|].
  cbn [truthy]. split; [done|]. rewrite map_map. cbn [label].
  rewrite map_id, join_split, length_map, split_length.
  repeat split; try done.
  apply Forall_fmap, Forall_forall. intros piece Hin. cbn. split; [|done].
  pose proof (split_pieces 10 (c :: text)) as Hpieces.
  rewrite Forall_forall in Hpieces. by apply Hpieces.
Qed.

(** The example of the specification: an invalid structured field and
    the text of three lines X, Y, Z. *)
Lemma decode_falls_back_to_text_witness :
  clipboardToChoices
    (setData (js "text/plain") (js "X" ++ [10] ++ js "Y" ++ [10] ++ js "Z")
       (setData (js "application/json") (js "{not json") ∅))
  = [mkChoiceItem (js "X") None; mkChoiceItem (js "Y") None;
     mkChoiceItem (js "Z") None].
Proof.
  refine (proj1 (decode_falls_back_to_text _ _ _)).
  - right. left. vm_compute. reflexivity.
  - vm_compute. discriminate.
Defined.

Example decode_empty_lines :
  clipboardToChoices
    (setData (js "text/plain") ([10] ++ js "X" ++ [10; 10]) ∅)
  = [mkChoiceItem [] None; mkChoiceItem (js "X") None;
     mkChoiceItem [] None; mkChoiceItem [] None].
Proof. vm_compute. reflexivity. Qed.

(** With an empty text the decoder returns no token, where the rule of
    one token for each line gives one token with an empty label. *)
Lemma decode_empty_text_no_token :
  clipboardToChoices
    (setData (js "text/plain") []
       (setData (js "application/json") (js "{not json") ∅))
  = []
  ∧ one_token_per_line [] = [mkChoiceItem [] None].
Proof. split; vm_compute; reflexivity. Qed.

(** C10.  When the structured field is not usable and the plain-text
    field is the empty string, the decoder returns no token at all, not
    one token with an empty label. *)
Theorem decode_empty_text (clipboard : DataTransfer) :
  getData clipboard (js "application/json") = []
  ∨ JSON_parse (getData clipboard (js "application/json")) = None
  ∨ (∃ v, JSON_parse (getData clipboard (js "application/json")) = Some v
          ∧ token_list_shape v = false) →
  getData clipboard (js "text/plain") = [] →
  clipboardToChoices clipboard = []
  ∧ clipboardToChoices clipboard ≠ [mkChoiceItem [] None].
Proof.
  intros Hjson Htext. rewrite clipboardToChoices_text by done.
  unfold textToChoices. by rewrite Htext.
Qed.

Lemma decode_empty_text_witness :
  clipboardToChoices
    (setData (js "application/json") (jsq "{'label':'X'}") ∅)
  = [].
Proof.
  refine (proj1 (decode_empty_text _ _ _)).
  - right. right. eexists. split; vm_compute; reflexivity.
  - vm_compute. reflexivity.
Defined.

(** C5.  Decoding the payload that [tokensToClipboard] writes for a
    list of tokens gives the tokens back, the same labels in the same
    order with the same options: whatever objects hold the tokens, in
    whatever order each prints its properties and with whatever further
    properties. *)
Theorem decode_encode (tokens : list ChoiceItem) (held : list JSON)
    (clipboard : DataTransfer) :
  Forall2 holds held tokens →
  clipboardToChoices (tokensToClipboard held clipboard) = tokens.
Proof.
  intros (Hprint & Hshape & Hread)%holds_all.
  assert (getData (tokensToClipboard held clipboard) (js "application/json")
          = JSON_stringify (JArray held)) as Hdata.
  { unfold tokensToClipboard, getData, setData.
    rewrite lookup_insert_ne by done. by rewrite lookup_insert_eq. }
  unfold clipboardToChoices, isJSON.
  rewrite Hdata, JSON_parse_stringify, Hshape by done.
  by cbn [JSON_stringify truthy andb].
Qed.

(** Two tokens: one held by an object that prints its options first,
    with the text colour before the fill colour and further properties;
    one built by the constructor, without options. *)
Lemma decode_encode_witness :
  clipboardToChoices
    (tokensToClipboard
       [JObject [(js "id", JNumber (js "7"));
                 (js "options",
                  JObject [(js "textColor", JString (js "#000"));
                           (js "alpha", JNumber (js "0.5"));
                           (js "fillColor", JString (js "#f00"))]);
                 (js "label", JString (js "A"))];
        new_ChoiceItem (js "two" ++ [10] ++ js "lines") None] ∅)
  = [mkChoiceItem (js "A") (Some (mkOptions (js "#000") (js "#f00")));
     mkChoiceItem (js "two" ++ [10] ++ js "lines") None].
Proof.
  apply decode_encode.
  repeat constructor; vm_compute; reflexivity.
Defined.

(** * Further properties of the editor *)

Lemma candidate_consistent (tokens : list ChoiceItem) :
  consistent (candidate tokens).
Proof.
  unfold consistent, candidate. rewrite uniqBy_deduplicate. cbn [fst snd].
  pose proof (deduplicate_NoDup tokens) as Hnd. split; [done|].
  intros l [o Hl]. apply collect_options_lookup in Hl; [|done].
  apply list_elem_of_fmap. by exists (mkChoiceItem l (Some o)).
Qed.

(** Every call an event makes is the candidate of some tokens, made by
    a save in edit mode. *)
Lemma step_call_origin (st : ChoiceListEntry) (e : Event) (call : SaveCall) :
  call ∈ snd (step st e) →
  is_save e = true ∧ _isEditing st = true
  ∧ ∃ tokens, call = candidate tokens.
Proof.
  destruct st as [b h v o].
  destruct e; unfold step, handle, _save, render; cbn; destruct b; cbn;
    try (by intros ?%elem_of_nil).
  all: destruct h as [tf|]; cbn; try (by intros ?%elem_of_nil).
  all: destruct (negb _ || negb _); cbn; try (by intros ?%elem_of_nil).
  all: intros ->%list_elem_of_singleton; repeat split; eauto.
Qed.

Lemma run_call_origin (events : list Event) (st : ChoiceListEntry)
    (call : SaveCall) :
  call ∈ snd (run st events) → ∃ tokens, call = candidate tokens.
Proof.
  revert st. induction events as [|e events IH]; intros st; cbn [run].
  - by intros ?%elem_of_nil.
  - pose proof (step_call_origin st e call) as Hstep.
    destruct (step st e) as [st1 calls1]. specialize (IH st1).
    destruct (run st1 events) as [st2 calls2]. cbn [snd] in *.
    intros [Hin|Hin]%elem_of_app; [by apply Hstep|by apply IH].
Qed.

(** X1.  In edit mode the Cancel button and the Escape key end the
    session: the editor goes to view mode, [_onSave] is not called, the
    held values and options stay as they are, and the edits are
    dropped: from then on the editor answers every sequence of events
    as one newly created over the held values and options. *)
Theorem cancel_discards_session (st : ChoiceListEntry) (e : Event) :
  e = ClickCancel ∨ e = KeyEscape →
  _isEditing st = true →
  _isEditing (fst (step st e)) = false
  ∧ snd (step st e) = []
  ∧ _values (fst (step st e)) = _values st
  ∧ _choiceOptionsByName (fst (step st e)) = _choiceOptionsByName st
  ∧ ∀ events : list Event,
      snd (run (fst (step st e)) events)
      = snd (run (create (_values st) (_choiceOptionsByName st)) events).
Proof.
  intros He Hedit.
  assert (step st e = (_cancel st, [])) as ->.
  { destruct He as [-> | ->]; unfold step, handle, render; rewrite Hedit; done. }
  cbn. repeat split; try done.
  intros events. apply run_same_view. unfold same_view. cbn. done.
Qed.

Lemma cancel_discards_session_witness :
  snd (run (fst (step (fst (run (create [js "A"] ∅)
                               [ClickEdit;
                                TokenFieldChange [] (js "B")]))
                      KeyEscape))
           [ClickEdit; ClickSave])
  = snd (run (create [js "A"] ∅) [ClickEdit; ClickSave]).
Proof.
  refine (proj2 (proj2 (proj2 (proj2
    (cancel_discards_session
       (fst (run (create [js "A"] ∅)
                 [ClickEdit; TokenFieldChange [] (js "B")]))
       KeyEscape _ _)))) [ClickEdit; ClickSave]).
  - right. reflexivity.
  - reflexivity.
Defined.

(** X2.  The editor never sets the two observables: after any sequence
    of events they hold what the changes from outside made of them. *)
Theorem held_pair_only_changes_from_outside (events : list Event)
    (st : ChoiceListEntry) :
  (_values (fst (run st events)), _choiceOptionsByName (fst (run st events)))
  = external_changes events (_values st, _choiceOptionsByName st).
Proof.
  revert st. induction events as [|e events IH]; intros st; [done|].
  cbn [run].
  assert ((_values (fst (step st e)), _choiceOptionsByName (fst (step st e)))
          = external_changes [e] (_values st, _choiceOptionsByName st)) as Hstep.
  { destruct st as [b h v o].
    destruct e; unfold step, handle, _save, render; cbn; destruct b; cbn;
      try done.
    all: destruct h as [tf|]; cbn; try done.
    all: destruct (negb _ || negb _); cbn; done. }
  specialize (IH (fst (step st e))).
  destruct (step st e) as [st1 calls1]. cbn [fst] in *.
  destruct (run st1 events) as [st2 calls2]. cbn [fst] in *.
  rewrite IH. destruct e; cbn in Hstep |- *; by inversion Hstep.
Qed.

(** X3.  [_onSave] is called by nothing but a save in edit mode: an
    event that makes a call is the Save button or the Enter key, in
    edit mode, and a sequence of events without a save makes no call. *)
Theorem calls_only_from_save (st : ChoiceListEntry) (events : list Event) :
  Forall (λ e, is_save e = false) events →
  snd (run st events) = []
  ∧ ∀ e, snd (step st e) ≠ [] → is_save e = true ∧ _isEditing st = true.
Proof.
  intros Hsave. split.
  - revert st. induction Hsave as [|e events He _ IH]; intros st; [done|].
    cbn [run]. pose proof (step_call_origin st e) as Hstep.
    destruct (step st e) as [st1 calls1]. specialize (IH st1).
    destruct (run st1 events) as [st2 calls2]. cbn [snd] in *. subst calls2.
    destruct calls1 as [|call calls1]; [done|].
    destruct (Hstep call) as [Hsave' _]; [left|congruence].
  - intros e Hcalls. pose proof (step_call_origin st e) as Hstep.
    destruct (snd (step st e)) as [|call calls]; [done|].
    destruct (Hstep call) as (? & ? & _); [left|done].
Qed.

Lemma calls_only_from_save_witness :
  snd (run (create [js "A"] ∅)
           [ClickEdit; TokenFieldChange [] (js "B"); ClickCancel;
            ClickListBox; OptionsChange ∅; ValuesChange []])
  = [].
Proof.
  refine (proj1 (calls_only_from_save _ _ _)).
  repeat constructor.
Defined.

(** X4.  Whatever the events, the arguments of every call of [_onSave]
    are consistent: the values have no duplicate, and every key of the
    options is one of the values. *)
Theorem calls_are_consistent (events : list Event) (st : ChoiceListEntry) :
  Forall consistent (snd (run st events)).
Proof.
  apply Forall_forall. intros call Hin.
  apply run_call_origin in Hin as [tokens ->]. apply candidate_consistent.
Qed.

(** X5.  Once the host has applied a call of [_onSave], so that the
    observables hold its arguments, starting to edit and saving at once
    makes no further call. *)
Theorem applied_save_is_stable (events : list Event) (st : ChoiceListEntry)
    (call : SaveCall) :
  call ∈ snd (run st events) →
  snd (run (create call.1 call.2) [ClickEdit; ClickSave]) = [].
Proof.
  intros [tokens ->]%run_call_origin.
  apply immediate_save; [done|]. apply candidate_consistent.
Qed.

Lemma applied_save_is_stable_witness :
  snd (run (create [js "A"; js "C"]
                   {[ js "A" := mkOptions (js "#000") (js "#f00") ]})
           [ClickEdit; ClickSave])
  = [].
Proof.
  refine (applied_save_is_stable
            [ClickEdit;
             TokenFieldChange
               [mkChoiceItem (js "A") (Some (mkOptions (js "#000") (js "#f00")));
                mkChoiceItem (js "A") None] (js "C");
             KeyEnter]
            (create [js "A"; js "B"] ∅)
            ([js "A"; js "C"],
             {[ js "A" := mkOptions (js "#000") (js "#f00") ]}) _).
  vm_compute. left.
Defined.

Lemma deduplicate_sublist (tokens : list ChoiceItem) :
  deduplicate tokens `sublist_of` tokens.
Proof.
  induction tokens as [|t tokens IH]; [done|]. cbn [deduplicate].
  apply sublist_skip. etrans; [apply sublist_filter|done].
Qed.

Lemma deduplicate_snoc_seen (tokens : list ChoiceItem) (t : ChoiceItem) :
  label t ∈ map label tokens →
  deduplicate (tokens ++ [t]) = deduplicate tokens.
Proof.
  intros Hin. rewrite deduplicate_app. cbn [deduplicate].
  rewrite filter_nil, filter_cons_False by (intros Hnot; by apply Hnot).
  by rewrite app_nil_r.
Qed.

Lemma push_pending_twice (tokens : list ChoiceItem) (pending : jsstring) :
  candidate (push_pending (push_pending tokens pending) pending)
  = candidate (push_pending tokens pending).
Proof.
  unfold push_pending. destruct (truthy pending); [|done].
  rewrite !candidate_deduplicate, deduplicate_snoc_seen; [done|].
  rewrite map_app. apply elem_of_app. right. cbn. left.
Qed.

(** X6.  A save loses no label and invents none, and keeps the order:
    the new values are a subsequence of the labels of the tokens
    followed by the pending text, with exactly the same members; a
    pending text that is not empty is among them; and every entry of
    the new options is the options of one of the tokens. *)
Theorem save_preserves_labels (tokens : list ChoiceItem) (pending : jsstring) :
  let labels := map label (push_pending tokens pending) in
  fst (save_candidate tokens pending) `sublist_of` labels
  ∧ (∀ l, l ∈ fst (save_candidate tokens pending) ↔ l ∈ labels)
  ∧ (pending = [] ∨ pending ∈ fst (save_candidate tokens pending))
  ∧ (labels = map label tokens ++ match pending with [] => [] | _ => [pending] end)
  ∧ (∀ l o, snd (save_candidate tokens pending) !! l = Some o →
            mkChoiceItem l (Some o) ∈ tokens).
Proof.
  intros labels. subst labels. unfold save_candidate.
  rewrite candidate_deduplicate. cbn [fst snd].
  split; [apply (fmap_sublist label), deduplicate_sublist|].
  split; [apply deduplicate_labels|].
  split; [|split].
  - destruct pending as [|c pending]; [by left|right].
    apply deduplicate_labels. unfold push_pending. cbn [truthy].
    rewrite map_app. apply elem_of_app. right. cbn. left.
  - unfold push_pending. destruct pending; cbn [truthy]; [by rewrite app_nil_r|].
    by rewrite map_app.
  - intros l o Hl.
    rewrite <- collect_options_list_to_map in Hl by apply deduplicate_NoDup.
    apply collect_options_lookup in Hl; [|apply deduplicate_NoDup].
    apply deduplicate_subseteq in Hl. unfold push_pending in Hl.
    destruct (truthy pending); [|done].
    apply elem_of_app in Hl as [Hl|Hl]; [done|].
    by apply list_elem_of_singleton in Hl.
Qed.

(** X7.  A save that calls [_onSave] leaves the pending text both in
    the text input and, pushed, in the array of the token field; a
    second save in the same session, nothing having changed, makes the
    same call again. *)
Theorem repeated_save_repeats_call (st : ChoiceListEntry)
    (tokenField : TokenField) (call : SaveCall) :
  _isEditing st = true →
  _tokenFieldHolder st = Some tokenField →
  snd (step st ClickSave) = [call] →
  _tokenFieldHolder (fst (step st ClickSave))
  = Some (mkTokenField (push_pending (tokensObs tokenField)
                                     (getTextInputValue tokenField))
                       (getTextInputValue tokenField))
  ∧ snd (step (fst (step st ClickSave)) ClickSave) = [call].
Proof.
  intros Hedit Hholder.
  destruct st as [b h v o]. cbn in Hedit, Hholder. subst b h.
  unfold step at 1 2 4, handle, _save. cbn.
  pose proof (push_pending_twice (tokensObs tokenField)
                                 (getTextInputValue tokenField)) as Htwice.
  unfold candidate in Htwice.
  destruct (negb _ || negb _) eqn:Hdiff; cbn; [|done].
  intros [= <-]. split; [done|].
  unfold step, handle, _save. cbn.
  injection Htwice as -> ->. by rewrite Hdiff.
Qed.

Lemma repeated_save_repeats_call_witness :
  snd (step (fst (step (fst (run (create [js "A"] ∅)
                                 [ClickEdit;
                                  TokenFieldChange [mkChoiceItem (js "A") None]
                                                   (js "B")]))
                       ClickSave))
            ClickSave)
  = [([js "A"; js "B"], ∅)].
Proof.
  refine (proj2 (repeated_save_repeats_call
    (fst (run (create [js "A"] ∅)
              [ClickEdit;
               TokenFieldChange [mkChoiceItem (js "A") None] (js "B")]))
    (mkTokenField [mkChoiceItem (js "A") None] (js "B"))
    ([js "A"; js "B"], ∅) _ _ _)).
  - reflexivity.
  - reflexivity.
  - vm_compute. reflexivity.
Defined.

(** X8.  In view mode a click on the list box or on the Edit button
    starts a session, without a call: the token field holds one token
    for each held value, in order, each with the options held for its
    label (none when the mapping has no entry), and an empty text
    input, whatever the holder held before.  In edit mode the two
    clicks change nothing. *)
Theorem start_editing_builds_tokens (st : ChoiceListEntry) (e : Event) :
  e = ClickEdit ∨ e = ClickListBox →
  (_isEditing st = true → step st e = (st, []))
  ∧ (_isEditing st = false →
     ∃ tokens,
       step st e
       = ({| _isEditing := true;
             _tokenFieldHolder := Some (mkTokenField tokens []);
             _values := _values st;
             _choiceOptionsByName := _choiceOptionsByName st |}, [])
       ∧ map label tokens = _values st
       ∧ Forall (λ t, options t = _choiceOptionsByName st !! label t) tokens).
Proof.
  intros He. split.
  - intros Hedit. destruct He as [-> | ->]; unfold step, handle, render;
      by rewrite Hedit.
  - intros Hview. exists (initialValue st).
    split; [by apply start_editing|]. split; [apply initialValue_labels|].
    apply Forall_forall. intros [l o] Hin%initialValue_elem. by destruct Hin.
Qed.

Lemma start_editing_builds_tokens_witness :
  ∃ tokens,
    step (create [js "A"; js "B"]
                 {[ js "B" := mkOptions (js "#000") (js "#f00") ]})
         ClickListBox
    = ({| _isEditing := true;
          _tokenFieldHolder := Some (mkTokenField tokens []);
          _values := [js "A"; js "B"];
          _choiceOptionsByName :=
            {[ js "B" := mkOptions (js "#000") (js "#f00") ]} |}, [])
    ∧ map label tokens = [js "A"; js "B"]
    ∧ Forall (λ t, options t
                   = ({[ js "B" := mkOptions (js "#000") (js "#f00") ]}
                        : ChoiceOptionsByName) !! label t) tokens.
Proof.
  exact (proj2 (start_editing_builds_tokens
    (create [js "A"; js "B"] {[ js "B" := mkOptions (js "#000") (js "#f00") ]})
    ClickListBox (or_intror eq_refl)) eq_refl).
Defined.

(** * Further properties of view mode *)

Lemma slice0_is_take {A : Type} (l : list A) (end_ : Z) :
  ∃ k, slice0 l end_ = take k l.
Proof. unfold slice0. eauto. Qed.

Lemma filter_choice_rows (choiceOptions : ChoiceOptionsByName)
    (values : list jsstring) :
  filter (λ r, is_choice_row r = true) (map (choice_row choiceOptions) values)
  = map (choice_row choiceOptions) values.
Proof.
  apply filter_all, Forall_forall. by intros r (v & -> & _)%list_elem_of_fmap.
Qed.

(** X9.  Whatever the row cap, the list box of view mode is never
    empty, and the choices it shows are the first held values, in their
    order, each with the fill colour held for it or the unset colour. *)
Theorem view_shows_first_values (maxRows : Z) (st : ChoiceListEntry) :
  buildDom_view maxRows st ≠ []
  ∧ ∃ k, filter (λ r, is_choice_row r = true) (buildDom_view maxRows st)
         = map (λ val, ChoiceRow (getFillColor (_choiceOptionsByName st !! val)) val)
               (take k (_values st)).
Proof.
  unfold buildDom_view.
  assert (∃ k, someValues maxRows (_values st) = take k (_values st))
    as [k ->].
  { unfold someValues. destruct (_ <=? _)%Z; [|apply slice0_is_take].
    exists (length (_values st)). by rewrite firstn_all. }
  split.
  - destruct (take k (_values st)); [done|]. cbn. done.
  - exists k. rewrite !filter_app, filter_choice_rows.
    fold (choice_row (_choiceOptionsByName st)).
    destruct (length _ =? 0)%nat, (_ >? _)%Z; cbn;
      rewrite ?filter_nil, ?app_nil_r; try done;
      rewrite ?filter_cons_False, ?filter_nil, ?app_nil_r by done; done.
Qed.

(** X10.  Under a row cap of at least 2 the list box of view mode has
    at most [maxRows] rows. *)
Theorem view_respects_cap (maxRows : Z) (st : ChoiceListEntry) :
  (2 ≤ maxRows)%Z →
  (Z.of_nat (length (buildDom_view maxRows st)) ≤ maxRows)%Z.
Proof.
  intros Hcap. unfold buildDom_view, someValues.
  destruct st as [b h values o]. cbn [_values _choiceOptionsByName].
  destruct (Z.leb_spec (Z.of_nat (length values)) maxRows) as [Hle|Hgt].
  - assert ((Z.of_nat (length values) >? maxRows)%Z = false) as -> by lia.
    rewrite app_nil_r, length_app, length_map.
    destruct values; cbn in *; lia.
  - assert ((Z.of_nat (length values) >? maxRows)%Z = true) as -> by lia.
    rewrite slice0_take by lia.
    rewrite !length_app, length_map, length_take. cbn [length].
    destruct (_ =? 0)%nat eqn:Hzero; cbn [length]; [|lia].
    apply Nat.eqb_eq in Hzero. lia.
Qed.

Lemma view_respects_cap_witness :
  (Z.of_nat (length (buildDom_view 6
      (create [js "A"; js "B"; js "C"; js "D"; js "E"; js "F"; js "G"; js "H"]
              ∅))) ≤ 6)%Z.
Proof.
  apply (view_respects_cap 6). lia.
Defined.

Example view_exceeds_cap_one :
  length (buildDom_view 1 (create [js "A"; js "B"] ∅)) = 2%nat.
Proof. reflexivity. Qed.

(** * Further properties of the clipboard codec *)

Lemma split_app_sep (sep : N) (x rest : jsstring) :
  sep ∉ x → split sep (x ++ sep :: rest) = x :: split sep rest.
Proof.
  induction x as [|c x IH]; intros Hx; cbn [app split].
  - by rewrite N.eqb_refl.
  - apply not_elem_of_cons in Hx as [Hc Hx].
    rewrite (proj2 (N.eqb_neq c sep)) by done. by rewrite IH.
Qed.

Lemma split_no_sep (sep : N) (x : jsstring) : sep ∉ x → split sep x = [x].
Proof.
  induction x as [|c x IH]; intros Hx; cbn [split]; [done|].
  apply not_elem_of_cons in Hx as [Hc Hx].
  rewrite (proj2 (N.eqb_neq c sep)) by done. by rewrite IH.
Qed.

Lemma split_join (sep : N) (pieces : list jsstring) :
  pieces ≠ [] → Forall (λ piece, sep ∉ piece) pieces →
  split sep (join sep pieces) = pieces.
Proof.
  intros Hne Hpieces. induction Hpieces as [|x pieces Hx Hpieces IH]; [done|].
  destruct pieces as [|y pieces]; cbn [join].
  - by apply split_no_sep.
  - rewrite split_app_sep by done. f_equal. by apply IH.
Qed.

(** X11.  The plain-text field [tokensToClipboard] writes gives the
    labels back: when no label holds a newline and the written text is
    not empty, a payload with that text and no usable structured field
    decodes to the same labels in the same order, without options. *)
Theorem text_field_round_trip (tokens : list ChoiceItem) (held : list JSON)
    (written clipboard : DataTransfer) :
  Forall2 holds held tokens →
  Forall (λ t, 10 ∉ label t) tokens →
  getData clipboard (js "application/json") = [] →
  getData clipboard (js "text/plain")
  = getData (tokensToClipboard held written) (js "text/plain") →
  getData clipboard (js "text/plain") ≠ [] →
  clipboardToChoices clipboard = map (λ t, mkChoiceItem (label t) None) tokens.
Proof.
  intros (_ & _ & Hread)%holds_all Hlabels Hjson Htext Hne.
  rewrite clipboardToChoices_text by auto. unfold textToChoices.
  assert (getData (tokensToClipboard held written) (js "text/plain")
          = join 10 (map label tokens)) as Hwritten.
  { unfold tokensToClipboard, getData, setData. rewrite lookup_insert_eq.
    cbn. by rewrite <- Hread, map_map. }
  rewrite Hwritten in Htext. rewrite Htext in Hne |- *.
  destruct (join 10 (map label tokens)) eqn:Hjoin; [done|]. cbn [truthy].
  rewrite <- Hjoin, split_join, map_map; [done| |].
  - by destruct tokens.
  - by apply Forall_fmap.
Qed.

Lemma text_field_round_trip_witness :
  clipboardToChoices
    (setData (js "text/plain")
       (getData (tokensToClipboard
                   [new_ChoiceItem (js "A")
                      (Some (options_literal (js "#f00") (js "#000")));
                    new_ChoiceItem [] None; new_ChoiceItem (js "B") None] ∅)
                (js "text/plain")) ∅)
  = [mkChoiceItem (js "A") None; mkChoiceItem [] None;
     mkChoiceItem (js "B") None].
Proof.
  refine (text_field_round_trip
    [mkChoiceItem (js "A") (Some (mkOptions (js "#000") (js "#f00")));
     mkChoiceItem [] None; mkChoiceItem (js "B") None]
    [new_ChoiceItem (js "A") (Some (options_literal (js "#f00") (js "#000")));
     new_ChoiceItem [] None; new_ChoiceItem (js "B") None] ∅ _ _ _ _ _ _).
  - repeat constructor; vm_compute; reflexivity.
  - apply (bool_decide_unpack _). vm_compute. exact I.
  - reflexivity.
  - reflexivity.
  - vm_compute. discriminate.
Defined.

Lemma lookup_last_other (name key : jsstring) (v : JSON)
    (p1 p2 : list (jsstring * JSON)) :
  key ≠ name →
  lookup_last name (p1 ++ (key, v) :: p2) = lookup_last name (p1 ++ p2).
Proof.
  intros Hne. induction p1 as [|[k w] p1 IH]; cbn [app lookup_last].
  - destruct (lookup_last name p2); [done|].
    by rewrite bool_decide_eq_false_2.
  - by rewrite IH.
Qed.

(** X12.  The check of a pasted element allows further properties: a
    property named otherwise than [label], [options], [textColor] and
    [fillColor], wherever it stands in an element or in its options,
    changes neither whether the element is accepted nor the token it is
    read as. *)
Theorem further_properties_are_ignored (key : jsstring) (v : JSON)
    (p1 p2 : list (jsstring * JSON)) :
  key ∉ [js "label"; js "options"; js "textColor"; js "fillColor"] →
  ChoiceItemChecker_test (JObject (p1 ++ (key, v) :: p2))
  = ChoiceItemChecker_test (JObject (p1 ++ p2))
  ∧ as_ChoiceItem (JObject (p1 ++ (key, v) :: p2))
    = as_ChoiceItem (JObject (p1 ++ p2))
  ∧ ChoiceOptionsType (JObject (p1 ++ (key, v) :: p2))
    = ChoiceOptionsType (JObject (p1 ++ p2))
  ∧ as_IChoiceOptions (JObject (p1 ++ (key, v) :: p2))
    = as_IChoiceOptions (JObject (p1 ++ p2)).
Proof.
  intros Hkey. rewrite !not_elem_of_cons in Hkey.
  destruct Hkey as (Hlabel & Hoptions & Htext & Hfill & _).
  unfold ChoiceItemChecker_test, ChoiceOptionsType, as_ChoiceItem,
    as_IChoiceOptions, required_string, prop, is_object.
  by rewrite !lookup_last_other by done.
Qed.

Lemma further_properties_are_ignored_witness :
  ChoiceItemChecker_test
    (JObject ([(js "label", JString (js "X"))]
              ++ (js "id", JNumber (js "7")) :: []))
  = ChoiceItemChecker_test (JObject ([(js "label", JString (js "X"))] ++ [])).
Proof.
  refine (proj1 (further_properties_are_ignored (js "id") (JNumber (js "7"))
                   [(js "label", JString (js "X"))] [] _)).
  apply (bool_decide_unpack _). vm_compute. exact I.
Defined.

Example decode_with_further_properties :
  clipboardToChoices
    (setData (js "application/json")
       (jsq "[{'label':'X','id':7,'options':{'textColor':'#000','alpha':0.5,'fillColor':'#fff'}}]")
       ∅)
  = [mkChoiceItem (js "X") (Some (mkOptions (js "#000") (js "#fff")))].
Proof. vm_compute. reflexivity. Qed.

(** A label that holds a newline does not survive the plain-text field:
    it comes back as two tokens. *)
Example text_field_splits_label :
  clipboardToChoices
    (setData (js "text/plain")
       (getData (tokensToClipboard
                   [new_ChoiceItem (js "two" ++ [10] ++ js "lines") None] ∅)
                (js "text/plain")) ∅)
  = [mkChoiceItem (js "two") None; mkChoiceItem (js "lines") None].
Proof. vm_compute. reflexivity. Qed.

(** * The colour button *)

Lemma candidate_first_options (before : list ChoiceItem) (t : ChoiceItem)
    (after : list ChoiceItem) :
  label t ∉ map label before →
  snd (candidate (before ++ t :: after)) !! label t = options t.
Proof.
  intros Hfirst. unfold candidate. rewrite uniqBy_deduplicate. cbn [snd].
  apply collect_options_token; [apply deduplicate_NoDup|].
  rewrite deduplicate_app. apply elem_of_app. right. cbn [deduplicate].
  rewrite filter_cons_True by done. left.
Qed.

(** X13.  When the save handler of a token's colour button runs with
    the colours the button started from, it replaces the token by one
    with the same label: the same token when it had options, and when
    it had none a token with the unset fill colour and the default text
    colour as explicit options, which a save then records under its
    label.  Without a token field in the holder the handler does
    nothing. *)
Theorem colour_button_unchanged (DEFAULT_TEXT_COLOR : jsstring)
    (st : ChoiceListEntry) (token : ChoiceItem) :
  match _tokenFieldHolder st with
  | None =>
      colorButton_onSave st token (fillColorObs token)
                         (textColorObs DEFAULT_TEXT_COLOR token) = None
  | Some _ =>
      ∃ replacement,
        colorButton_onSave st token (fillColorObs token)
                           (textColorObs DEFAULT_TEXT_COLOR token)
        = Some (label token, replacement)
        ∧ label replacement = label token
        ∧ (is_Some (options token) → replacement = token)
        ∧ (options token = None →
           options replacement
           = Some {| textColor := DEFAULT_TEXT_COLOR; fillColor := UNSET_COLOR |}
           ∧ ∀ before after,
               label token ∉ map label before →
               snd (candidate (before ++ replacement :: after)) !! label token
               = Some {| textColor := DEFAULT_TEXT_COLOR;
                         fillColor := UNSET_COLOR |})
  end.
Proof.
  unfold colorButton_onSave. destruct (_tokenFieldHolder st); [|done].
  eexists. split; [done|]. split; [done|].
  destruct token as [l [[tc fc]|]]; cbn.
  - split; [done|]. done.
  - split; [by intros [? ?]|]. intros _. split; [done|].
    intros before after Hfirst.
    exact (candidate_first_options before
             (mkChoiceItem l (Some (mkOptions DEFAULT_TEXT_COLOR UNSET_COLOR)))
             after Hfirst).
Qed.

Example colour_button_pins_defaults :
  colorButton_onSave
    (fst (step (create [js "A"] ∅) ClickEdit))
    (mkChoiceItem (js "A") None)
    (fillColorObs (mkChoiceItem (js "A") None))
    (textColorObs (js "#000000") (mkChoiceItem (js "A") None))
  = Some (js "A",
          mkChoiceItem (js "A") (Some (mkOptions (js "#000000") (js "#ffffff")))).
Proof. reflexivity. Qed.

(** * Reachable states *)

(** X14.  Every state the editor reaches from its creation has a token
    field in the holder while in edit mode, so that a save there never
    returns early: it either calls [_onSave] or goes to view mode. *)
Theorem edit_mode_has_token_field (values : list jsstring)
    (choiceOptions : ChoiceOptionsByName) (events : list Event) :
  _isEditing (fst (run (create values choiceOptions) events)) = true →
  is_Some (_tokenFieldHolder (fst (run (create values choiceOptions) events)))
  ∧ (snd (step (fst (run (create values choiceOptions) events)) ClickSave) ≠ []
     ∨ _isEditing (fst (step (fst (run (create values choiceOptions) events))
                             ClickSave)) = false).
Proof.
  intros Hedit.
  assert (is_Some (_tokenFieldHolder
                     (fst (run (create values choiceOptions) events))))
    as [tf Hholder] by (by apply editing_has_token_field).
  split; [by exists tf|].
  destruct (save_editing _ tf Hedit Hholder) as (_ & Hne & Heq).
  destruct (decide (save_candidate (tokensObs tf) (getTextInputValue tf)
                    = (_values (fst (run (create values choiceOptions) events)),
                       _choiceOptionsByName
                         (fst (run (create values choiceOptions) events)))))
    as [Hsame|Hdiff].
  - right. by apply Heq.
  - left. apply Hne in Hdiff as [-> _]. done.
Qed.

Lemma edit_mode_has_token_field_witness :
  is_Some (_tokenFieldHolder
             (fst (run (create [js "A"] ∅)
                       [ClickEdit; ClickCancel; ValuesChange [js "B"];
                        ClickListBox]))).
Proof.
  refine (proj1 (edit_mode_has_token_field [js "A"] ∅
                   [ClickEdit; ClickCancel; ValuesChange [js "B"];
                    ClickListBox] _)).
  reflexivity.
Defined.

(** * Remarks *)

(** A change of the options observable, which has no listener, never
    changes the mode and makes no call. *)
Lemma options_change_keeps_mode (st : ChoiceListEntry)
    (choiceOptions : ChoiceOptionsByName) :
  _isEditing (fst (step st (OptionsChange choiceOptions))) = _isEditing st
  ∧ snd (step st (OptionsChange choiceOptions)) = [].
Proof.
  by destruct st as [[] h v o].
Qed.

(** Under a row cap of one, more than one value always shows the row
    saying that no choices are configured, before the summary row. *)
Lemma view_cap_one (st : ChoiceListEntry) :
  (1 < length (_values st))%nat →
  buildDom_view 1 st
  = [TextRow (js "No choices configured");
     more_row (Z.of_nat (length (_values st)))].
Proof.
  intros Hlen. unfold buildDom_view, someValues.
  assert ((Z.of_nat (length (_values st)) <=? 1)%Z = false) as -> by lia.
  assert ((Z.of_nat (length (_values st)) >? 1)%Z = true) as -> by lia.
  rewrite slice0_take by lia.
  change (Z.to_nat (1 - 1)) with 0%nat. cbn [take length Nat.eqb map app].
  by rewrite Z.sub_0_r.
Qed.
